(** * sym: a symlink farm manager

    Shallow embedding of [internal/sym/sym.go] over a model of the
    file-system calls it makes ([os.Stat], [os.Lstat], [os.Readlink],
    [os.Symlink], [os.MkdirAll], [os.Remove], [filepath.Walk]).

    The file system is a finite map from cleaned absolute paths to nodes;
    program state is the file system together with the lines printed on
    standard output.  Go's [error] results are values of an inductive type
    with one constructor per [fmt.Errorf] site. *)

From stdpp Require Import gmap strings list fin_maps sorting.
From Stdlib Require Import ZArith Ascii String.

Local Open Scope string_scope.
Local Open Scope list_scope.

(** ** Paths *)

Module Path.

(** A cleaned absolute path, as [filepath.Abs] and [filepath.Clean] return
    it, held as the list of its components: ["/a/b"] is [["a"; "b"]] and
    ["/"] is [[]]. *)
Abbreviation path := (list string).

Definition sep : ascii := "/"%char.

(** [strings.Split(s, "/")]. *)
Fixpoint split_acc (acc : string) (s : string) : list string :=
  match s with
  | EmptyString => [String.rev acc]
  | String c s' =>
      if Ascii.eqb c sep then String.rev acc :: split_acc EmptyString s'
      else split_acc (String c acc) s'
  end.

Definition split (s : string) : list string := split_acc EmptyString s.

Definition is_abs (s : string) : bool :=
  match s with
  | String c _ => Ascii.eqb c sep
  | EmptyString => false
  end.

(** The printed form of a cleaned absolute path. *)
Definition to_string (p : path) : string :=
  match p with
  | [] => "/"
  | _ => String.concat "" (map (fun c => String sep c) p)
  end.

(** Lexical cleaning of [comps] appended to the cleaned absolute path
    [dir]: empty and ["."] components vanish, [".."] drops the last
    component (and is dropped itself at the root). *)
Fixpoint clean_onto (dir : path) (comps : list string) : path :=
  match comps with
  | [] => dir
  | c :: cs =>
      if decide (c = "" ∨ c = ".") then clean_onto dir cs
      else if decide (c = "..") then clean_onto (removelast dir) cs
      else clean_onto (dir ++ [c]) cs
  end.

(** [filepath.Join(dir, elem)] for a cleaned absolute [dir]. *)
Definition Join (dir : path) (elem : string) : path :=
  clean_onto dir (split elem).

Fixpoint strip_common (base targ : path) : path * path :=
  match base, targ with
  | b :: base', t :: targ' =>
      if decide (b = t) then strip_common base' targ' else (base, targ)
  | _, _ => (base, targ)
  end.

(** [filepath.Rel(base, targ)] for two cleaned absolute paths (it cannot
    fail on those); the result is a relative path, held as components. *)
Definition Rel (base targ : path) : list string :=
  let '(b, t) := strip_common base targ in
  match repeat ".." (List.length b) ++ t with
  | [] => ["."]
  | r => r
  end.

(** [filepath.Join(dir, rel)] for a relative path held as components. *)
Definition JoinRel (dir : path) (rel : list string) : path :=
  clean_onto dir rel.

(** What a directory entry can be called. *)
Definition valid_name (c : string) : Prop :=
  c ≠ "" ∧ c ≠ "." ∧ c ≠ ".." ∧ split c = [c].

#[export] Instance valid_name_dec c : Decision (valid_name c).
Proof. unfold valid_name. apply _. Defined.

(** [filepath.Dir(p)]. *)
Definition Dir (p : path) : path := removelast p.

End Path.

Export Path.

(** ** The file system *)

Module FS.

(** Go's [fs.FileMode] is a [uint32]: type bits above, permission bits in
    the low nine. *)
Definition ModeDir : Z := Z.shiftl 1 31.
Definition ModeSymlink : Z := Z.shiftl 1 27.
Definition ModePerm : Z := 511.

Inductive node :=
| File (perm : Z)
| Directory (perm : Z)
| Symlink (dest : string).

#[export] Instance node_eq_dec : EqDecision node.
Proof. solve_decision. Defined.

Inductive errno :=
| ENOENT | ENOTDIR | EEXIST | ELOOP | EINVAL | ENOTEMPTY.

#[export] Instance errno_eq_dec : EqDecision errno.
Proof. solve_decision. Defined.

Inductive result (A : Type) :=
| Ok (a : A)
| Err (e : errno).
Arguments Ok {A} a.
Arguments Err {A} e.

(** [os.FileInfo], as far as the program looks at it. *)
Record FileInfo := { Mode : Z }.

Definition IsDir (fi : FileInfo) : bool :=
  negb (Z.land (Mode fi) ModeDir =? 0)%Z.

Definition node_mode (nd : node) : Z :=
  match nd with
  | File perm => Z.land perm ModePerm
  | Directory perm => Z.lor ModeDir (Z.land perm ModePerm)
  | Symlink _ => Z.lor ModeSymlink ModePerm
  end.

(** Entries below the root, keyed by their physical path.  The root is a
    directory and has no entry of its own. *)
Abbreviation fs := (gmap (list string) node).

Definition root_node : node := Directory 493.

Definition node_at (σ : fs) (p : path) : option node :=
  match p with
  | [] => Some root_node
  | _ => σ !! p
  end.

(** The kernel follows at most this many symbolic links in one lookup. *)
Definition MAXSYMLINKS : nat := 40.

(** Path resolution.  [cur] is the physical path of the directory reached
    so far, [rest] the components still to look up; [follow] says whether
    a symbolic link in the last position is followed ([stat]) or returned
    ([lstat]).  The first argument bounds the links followed. *)
Fixpoint namei (n : nat) (σ : fs) (follow : bool)
    : path → list string → result path :=
  fix go (cur : path) (rest : list string) {struct rest} : result path :=
    match rest with
    | [] => Ok cur
    | c :: rest' =>
        if decide (c = "" ∨ c = ".") then go cur rest'
        else if decide (c = "..") then go (removelast cur) rest'
        else
          match σ !! (cur ++ [c]) with
          | None => Err ENOENT
          | Some (Directory _) => go (cur ++ [c]) rest'
          | Some (File _) =>
              match rest' with
              | [] => Ok (cur ++ [c])
              | _ => Err ENOTDIR
              end
          | Some (Symlink d) =>
              match rest', follow with
              | [], false => Ok (cur ++ [c])
              | _, _ =>
                  match n with
                  | O => Err ELOOP
                  | S n' =>
                      if decide (d = "") then Err ENOENT
                      else namei n' σ follow
                             (if is_abs d then [] else cur)
                             (split d ++ rest')
                  end
              end
          end
    end.

Definition resolve (σ : fs) (follow : bool) (p : path) : result path :=
  namei MAXSYMLINKS σ follow [] p.

Definition info_at (σ : fs) (q : path) : result FileInfo :=
  match node_at σ q with
  | Some nd => Ok {| Mode := node_mode nd |}
  | None => Err ENOENT
  end.

(** [os.Stat]: follows a link in the last position. *)
Definition Stat (σ : fs) (p : path) : result FileInfo :=
  match resolve σ true p with
  | Ok q => info_at σ q
  | Err e => Err e
  end.

(** [os.Lstat]: does not. *)
Definition Lstat (σ : fs) (p : path) : result FileInfo :=
  match resolve σ false p with
  | Ok q => info_at σ q
  | Err e => Err e
  end.

(** [os.Readlink]. *)
Definition Readlink (σ : fs) (p : path) : result string :=
  match resolve σ false p with
  | Ok q =>
      match node_at σ q with
      | Some (Symlink d) => Ok d
      | Some _ => Err EINVAL
      | None => Err ENOENT
      end
  | Err e => Err e
  end.

(** [os.IsNotExist] on the error of a file-system call. *)
Definition IsNotExist {A} (r : result A) : bool :=
  match r with
  | Err ENOENT => true
  | _ => false
  end.

(** The directory a new entry at [p] goes into, and the entry's name. *)
Definition resolve_parent (σ : fs) (p : path) : result (path * string) :=
  match last p with
  | None => Err EEXIST
  | Some c =>
      match resolve σ true (removelast p) with
      | Ok q =>
          match node_at σ q with
          | Some (Directory _) => Ok (q, c)
          | Some _ => Err ENOTDIR
          | None => Err ENOENT
          end
      | Err e => Err e
      end
  end.

(** [os.Symlink(oldname, newname)]. *)
Definition Symlink_ (σ : fs) (oldname : string) (newname : path)
    : result fs :=
  if decide (oldname = "") then Err ENOENT
  else
    match resolve_parent σ newname with
    | Ok (q, c) =>
        match σ !! (q ++ [c]) with
        | Some _ => Err EEXIST
        | None => Ok (<[q ++ [c] := Symlink oldname]> σ)
        end
    | Err e => Err e
    end.

(** [os.Mkdir(name, perm)]; the process's umask is taken to be zero. *)
Definition Mkdir (σ : fs) (name : path) (perm : Z) : result fs :=
  match resolve_parent σ name with
  | Ok (q, c) =>
      match σ !! (q ++ [c]) with
      | Some _ => Err EEXIST
      | None => Ok (<[q ++ [c] := Directory (Z.land perm ModePerm)]> σ)
      end
  | Err e => Err e
  end.

(** [os.MkdirAll(path, perm)], on the reversed path: probe with [Stat],
    else make the parent (which Go names with its trailing separator,
    hence [slash]) and then the directory itself. *)
Fixpoint MkdirAll_rev (σ : fs) (rp : list string) (slash : bool) (perm : Z)
    : result fs :=
  let p := rev rp ++ (if slash then [""] else []) in
  match Stat σ p with
  | Ok fi => if IsDir fi then Ok σ else Err ENOTDIR
  | Err e0 =>
      match rp with
      | [] => Err e0
      | _ :: rp' =>
          match MkdirAll_rev σ rp' true perm with
          | Err e => Err e
          | Ok σ1 =>
              match Mkdir σ1 (rev rp) perm with
              | Ok σ2 => Ok σ2
              | Err e =>
                  match Lstat σ1 p with
                  | Ok fi => if IsDir fi then Ok σ1 else Err e
                  | Err _ => Err e
                  end
              end
          end
      end
  end.

Definition MkdirAll (σ : fs) (p : path) (perm : Z) : result fs :=
  MkdirAll_rev σ (rev p) false perm.

Fixpoint strip_prefix (q k : list string) : option (list string) :=
  match q, k with
  | [], _ => Some k
  | a :: q', b :: k' => if decide (a = b) then strip_prefix q' k' else None
  | _ :: _, [] => None
  end.

Definition child_name (q k : list string) : option string :=
  match strip_prefix q k with
  | Some [c] => if decide (valid_name c) then Some c else None
  | _ => None
  end.

Definition name_le (a b : string) : Prop := String.leb a b = true.

#[export] Instance name_le_dec a b : Decision (name_le a b).
Proof. unfold name_le. apply _. Defined.

(** The names in the directory whose physical path is [q], ascending. *)
Definition children (σ : fs) (q : path) : list string :=
  merge_sort name_le (omap (child_name q) (map_to_list σ).*1).

(** [readDirNames] of path/filepath: open, read the names, sort them. *)
Definition readDirNames (σ : fs) (p : path) : result (list string) :=
  match resolve σ true p with
  | Ok q =>
      match node_at σ q with
      | Some (Directory _) => Ok (children σ q)
      | Some _ => Err ENOTDIR
      | None => Err ENOENT
      end
  | Err e => Err e
  end.

(** [os.Remove(name)]: unlink a file or link, remove an empty
    directory. *)
Definition Remove (σ : fs) (name : path) : result fs :=
  match resolve_parent σ name with
  | Ok (q, c) =>
      match σ !! (q ++ [c]) with
      | None => Err ENOENT
      | Some (Directory _) =>
          match children σ (q ++ [c]) with
          | [] => Ok (delete (q ++ [c]) σ)
          | _ => Err ENOTEMPTY
          end
      | Some _ => Ok (delete (q ++ [c]) σ)
      end
  | Err e => Err e
  end.

End FS.

Export FS.

(** ** The program *)

Module Sym.

Record Config := {
  SymDir : path;
  TargetDir : path;
  Verbose : bool;
  Simulate : bool;
  Delete : bool;
  ReSym : bool;
  Packages : list string
}.

(** Go [error] values: those the [os] package returns, and one
    constructor per [fmt.Errorf] call of the program; [%w] arguments are
    kept as the wrapped error. *)
Inductive error :=
| PathError (op : string) (p : path) (e : errno)
| LinkError (op : string) (oldname : string) (newname : path) (e : errno)
| ErrPackageMissing (pkgPath : path)
| ErrUnsymDuringResym (cause : error)
| ErrCreateDirectory (targetPath : path) (cause : error)
| ErrPointsElsewhere (targetPath : path) (link : string) (srcPath : path)
| ErrNotASymlink (targetPath : path)
| ErrCreateParent (targetDir : path) (cause : error)
| ErrCreateSymlink (targetPath : path) (srcPath : path) (cause : error)
| ErrRemoveSymlink (targetPath : path) (cause : error).

(** The text of an error, as [Error()] prints it. *)
Definition errno_text (e : errno) : string :=
  match e with
  | ENOENT => "no such file or directory"
  | ENOTDIR => "not a directory"
  | EEXIST => "file exists"
  | ELOOP => "too many levels of symbolic links"
  | EINVAL => "invalid argument"
  | ENOTEMPTY => "directory not empty"
  end.

Fixpoint error_text (e : error) : string :=
  match e with
  | PathError op p e => op +:+ " " +:+ to_string p +:+ ": " +:+ errno_text e
  | LinkError op o n e =>
      op +:+ " " +:+ o +:+ " " +:+ to_string n +:+ ": " +:+ errno_text e
  | ErrPackageMissing pkgPath =>
      "package directory does not exist: " +:+ to_string pkgPath
  | ErrUnsymDuringResym c =>
      "failed to unsym during resym: " +:+ error_text c
  | ErrCreateDirectory t c =>
      "failed to create directory " +:+ to_string t +:+ ": " +:+ error_text c
  | ErrPointsElsewhere t link src =>
      "target " +:+ to_string t +:+ " already exists and points to "
      +:+ link +:+ " (not " +:+ to_string src +:+ ")"
  | ErrNotASymlink t =>
      "target " +:+ to_string t +:+ " already exists and is not a symlink"
  | ErrCreateParent d c =>
      "failed to create parent directory " +:+ to_string d +:+ ": "
      +:+ error_text c
  | ErrCreateSymlink t src c =>
      "failed to create symlink " +:+ to_string t +:+ " -> "
      +:+ to_string src +:+ ": " +:+ error_text c
  | ErrRemoveSymlink t c =>
      "failed to remove symlink " +:+ to_string t +:+ ": " +:+ error_text c
  end.

(** The error kinds of the design. *)
Definition is_not_found (e : error) : bool :=
  match e with ErrPackageMissing _ => true | _ => false end.

Definition is_conflict (e : error) : bool :=
  match e with
  | ErrPointsElsewhere _ _ _ | ErrNotASymlink _ => true
  | _ => false
  end.

(** *** State: the file system and what was printed *)

Record world := { files : fs; stdout : list string }.

Definition M (A : Type) : Type := world → A * world.

#[export] Instance M_ret : MRet M := λ A a w, (a, w).

#[export] Instance M_bind : MBind M :=
  λ A B k m w, let '(a, w') := m w in k a w'.

Definition ret {A} (a : A) : M A := mret a.

Definition get_files : M fs := λ w, (files w, w).

Definition put_files (σ : fs) : M unit :=
  λ w, (tt, {| files := σ; stdout := stdout w |}).

(** [fmt.Printf] of one line. *)
Definition Printf (line : string) : M unit :=
  λ w, (tt, {| files := files w; stdout := stdout w ++ [line] |}).

Definition when (b : bool) (m : M unit) : M unit :=
  if b then m else ret tt.

(** [if err := m; err != nil { return err }; k] *)
Definition try (m : M (option error)) (k : M (option error))
    : M (option error) :=
  r ← m; match r with Some e => ret (Some e) | None => k end.

(** A file-system call that changes the file system: on failure the
    state is as before and the error is handed to [wrap]. *)
Definition mutate (call : fs → result fs) (wrap : errno → error)
    : M (option error) :=
  σ ← get_files;
  match call σ with
  | Ok σ' => put_files σ';; ret None
  | Err e => ret (Some (wrap e))
  end.

(** *** createSymlink *)

Definition createSymlink (config : Config) (srcPath targetPath : path)
    : M (option error) :=
  σ ← get_files;
  match Lstat σ targetPath with
  | Ok _ =>
      match Readlink σ targetPath with
      | Ok link =>
          if decide (link = to_string srcPath) then
            when (Verbose config)
              (Printf ("Symlink already exists: " +:+ to_string targetPath
                       +:+ " -> " +:+ to_string srcPath));;
            ret None
          else ret (Some (ErrPointsElsewhere targetPath link srcPath))
      | Err _ => ret (Some (ErrNotASymlink targetPath))
      end
  | Err _ =>
      let targetDir := Dir targetPath in
      try
        (if IsNotExist (Stat σ targetDir) then
           when (Verbose config)
             (Printf ("Creating parent directory: " +:+ to_string targetDir));;
           if negb (Simulate config) then
             mutate (λ σ, MkdirAll σ targetDir 493)
               (λ e, ErrCreateParent targetDir (PathError "mkdir" targetDir e))
           else ret None
         else ret None)
        (when (Verbose config)
           (Printf ("Creating symlink: " +:+ to_string targetPath
                    +:+ " -> " +:+ to_string srcPath));;
         if negb (Simulate config) then
           mutate (λ σ, Symlink_ σ (to_string srcPath) targetPath)
             (λ e, ErrCreateSymlink targetPath srcPath
                     (LinkError "symlink" (to_string srcPath) targetPath e))
         else ret None)
  end.

(** *** removeSymlink *)

Definition removeSymlink (config : Config) (srcPath targetPath : path)
    : M (option error) :=
  σ ← get_files;
  match Lstat σ targetPath with
  | Err ENOENT =>
      when (Verbose config)
        (Printf ("Target does not exist: " +:+ to_string targetPath));;
      ret None
  | Err e => ret (Some (PathError "lstat" targetPath e))
  | Ok info =>
      if (Z.land (Mode info) ModeSymlink =? 0)%Z then
        when (Verbose config)
          (Printf ("Target is not a symlink: " +:+ to_string targetPath));;
        ret None
      else
        match Readlink σ targetPath with
        | Err e => ret (Some (PathError "readlink" targetPath e))
        | Ok link =>
            if negb (bool_decide (link = to_string srcPath)) then
              when (Verbose config)
                (Printf ("Symlink " +:+ to_string targetPath
                         +:+ " points to " +:+ link +:+ " (not "
                         +:+ to_string srcPath +:+ "), leaving alone"));;
              ret None
            else
              when (Verbose config)
                (Printf ("Removing symlink: " +:+ to_string targetPath));;
              if negb (Simulate config) then
                mutate (λ σ, Remove σ targetPath)
                  (λ e, ErrRemoveSymlink targetPath
                          (PathError "remove" targetPath e))
              else ret None
        end
  end.

(** *** filepath.Walk

    [WalkFunc] gets the path, its [FileInfo] (nil when [Lstat] failed) and
    the error met on the way.  The functions of this program never return
    [filepath.SkipDir], so [error] has no such value and the branches of
    [walk] that test for it are not taken.  The recursion is bounded by
    [fuel], a bound on the depth descended; [None] means it ran out. *)

Definition WalkFunc : Type :=
path → option FileInfo → option error → M (option error).

(** The [for] loop of [walk] over the names of the directory [p];
    [walk_child] is the recursive call. *)
Definition each_name
    (walk_child : path → FileInfo → world → option (option error * world))
    (walkFn : WalkFunc) (p : path)
    : list string → world → option (option error * world) :=
fix each (names : list string) (w : world) {struct names} :=
  match names with
  | [] => Some (None, w)
  | name :: names' =>
      let filename := p ++ [name] in
      match Lstat (files w) filename with
      | Err e =>
          match walkFn filename None
                  (Some (PathError "lstat" filename e)) w with
          | (Some e', w') => Some (Some e', w')
          | (None, w') => each names' w'
          end
      | Ok fileInfo =>
          match walk_child filename fileInfo w with
          | None => None
          | Some (Some e', w') => Some (Some e', w')
          | Some (None, w') => each names' w'
          end
      end
  end.

Fixpoint walk (fuel : nat) (p : path) (info : FileInfo) (walkFn : WalkFunc)
    (w : world) : option (option error * world) :=
match fuel with
| O => None
| S fuel' =>
    if negb (IsDir info) then Some (walkFn p (Some info) None w)
    else
      let names := readDirNames (files w) p in
      let err :=
        match names with
        | Ok _ => None
        | Err e => Some (PathError "open" p e)
        end in
      let '(err1, w1) := walkFn p (Some info) err w in
      match names, err1 with
      | Ok names, None =>
          each_name (λ f i w, walk fuel' f i walkFn w) walkFn p names w1
      | _, _ => Some (err1, w1)
      end
end.

Definition Walk (fuel : nat) (root : path) (fn : WalkFunc) (w : world)
    : option (option error * world) :=
  match Lstat (files w) root with
  | Err e => Some (fn root None (Some (PathError "lstat" root e)) w)
  | Ok info => walk fuel root info fn w
  end.

(** *** symPackage *)

(** The function literal handed to [filepath.Walk] by [symPackage]. *)
Definition symVisit (config : Config) (pkgPath : path) : WalkFunc :=
  λ p info err,
    match err, info with
    | Some e, _ => ret (Some e)
    | None, None => ret None
    | None, Some info =>
        if decide (p = pkgPath) then ret None
        else
          let relPath := Rel pkgPath p in
          let targetPath := JoinRel (TargetDir config) relPath in
          if IsDir info then
            σ ← get_files;
            if IsNotExist (Stat σ targetPath) then
              when (Verbose config)
                (Printf ("Creating directory: " +:+ to_string targetPath));;
              if negb (Simulate config) then
                mutate (λ σ, MkdirAll σ targetPath (Mode info))
                  (λ e, ErrCreateDirectory targetPath
                          (PathError "mkdir" targetPath e))
              else ret None
            else ret None
          else
            try (createSymlink config p targetPath) (ret None)
    end.

Definition symPackage (fuel : nat) (config : Config) (pkg : string)
    (pkgPath : path) (w : world) : option (option error * world) :=
  let '(_, w) := when (Verbose config) (Printf ("Stowing package: " +:+ pkg)) w in
  Walk fuel pkgPath (symVisit config pkgPath) w.

(** *** unsymPackage *)

Definition unsymVisit (config : Config) (pkgPath : path) : WalkFunc :=
  λ p info err,
    match err, info with
    | Some e, _ => ret (Some e)
    | None, None => ret None
    | None, Some info =>
        if decide (p = pkgPath) then ret None
        else
          let relPath := Rel pkgPath p in
          let targetPath := JoinRel (TargetDir config) relPath in
          if negb (IsDir info) then
            try (removeSymlink config p targetPath) (ret None)
          else ret None
    end.

Definition unsymPackage (fuel : nat) (config : Config) (pkg : string)
    (pkgPath : path) (w : world) : option (option error * world) :=
  let '(_, w) := when (Verbose config) (Printf ("Unstowing package: " +:+ pkg)) w in
  Walk fuel pkgPath (unsymVisit config pkgPath) w.

(** *** ProcessPackage *)

Definition ProcessPackage (fuel : nat) (config : Config) (pkg : string)
    (w : world) : option (option error * world) :=
  let pkgPath := Join (SymDir config) pkg in
  if IsNotExist (Stat (files w) pkgPath) then
    Some (Some (ErrPackageMissing pkgPath), w)
  else if ReSym config then
    match unsymPackage fuel config pkg pkgPath w with
    | None => None
    | Some (Some err, w') => Some (Some (ErrUnsymDuringResym err), w')
    | Some (None, w') => symPackage fuel config pkg pkgPath w'
    end
  else if Delete config then unsymPackage fuel config pkg pkgPath w
  else symPackage fuel config pkg pkgPath w.

End Sym.

Export Sym.

(** ** The command *)

Module Cmd.

(** The error [RunE] of [cmd/root.go] returns: the error of a package,
    wrapped with the package's name. *)
Inductive run_error :=
| ErrProcessingPackage (pkg : string) (cause : error).

Definition run_error_text (e : run_error) : string :=
  match e with
  | ErrProcessingPackage pkg cause =>
      "error processing package '" +:+ pkg +:+ "': " +:+ error_text cause
  end.

(** The loop of [RunE] over the packages named on the command line: each
    is processed in turn, and the first error ends the loop. *)
Fixpoint processPackages (fuel : nat) (config : Config) (pkgs : list string)
    (w : world) : option (option run_error * world) :=
  match pkgs with
  | [] => Some (None, w)
  | pkg :: pkgs' =>
      match ProcessPackage fuel config pkg w with
      | None => None
      | Some (Some err, w') => Some (Some (ErrProcessingPackage pkg err), w')
      | Some (None, w') => processPackages fuel config pkgs' w'
      end
  end.

End Cmd.

Export Cmd.

(** ** Example trees *)

Module Examples.

(** The package of the design's example: [/src/vim] holds [.vimrc] and
    [colors/foo.vim]; the target root [/home/u] is empty. *)
Definition vim_package : list (path * node) :=
  [ (["src"], Directory 493);
    (["src"; "vim"], Directory 493);
    (["src"; "vim"; ".vimrc"], File 420);
    (["src"; "vim"; "colors"], Directory 488);
    (["src"; "vim"; "colors"; "foo.vim"], File 420);
    (["home"], Directory 493);
    (["home"; "u"], Directory 493) ].

Definition world_of (entries : list (path * node)) : world :=
  {| files := list_to_map entries; stdout := [] |}.

Definition fresh : world := world_of vim_package.

(** [/home/u/.vimrc] is already a link into another tree. *)
Definition foreign_link : world :=
  world_of ((["home"; "u"; ".vimrc"], Symlink "/other/.vimrc") :: vim_package).

(** [/home/u/.vimrc] is a plain file. *)
Definition plain_file : world :=
  world_of ((["home"; "u"; ".vimrc"], File 384) :: vim_package).

(** [/home/u/gone] is a link to [/src/vim/gone], which does not exist. *)
Definition dangling : world :=
  world_of ((["home"; "u"; "gone"], Symlink "/src/vim/gone") :: vim_package).





(** The example package, linked into [/home/u]. *)
Definition linked : world :=
{| files :=
     <[["home"; "u"; "colors"; "foo.vim"] := Symlink "/src/vim/colors/foo.vim"]>
       (<[["home"; "u"; "colors"] := Directory 488]>
          (<[["home"; "u"; ".vimrc"] := Symlink "/src/vim/.vimrc"]>
             (files fresh)));
   stdout := [] |}.

Definition config0 : Config :=
  {| SymDir := ["src"]; TargetDir := ["home"; "u"]; Verbose := false;
     Simulate := false; Delete := false; ReSym := false;
     Packages := ["vim"] |}.

Definition with_simulate (c : Config) : Config :=
  {| SymDir := SymDir c; TargetDir := TargetDir c; Verbose := Verbose c;
     Simulate := true; Delete := Delete c; ReSym := ReSym c;
     Packages := Packages c |}.

Definition with_delete (c : Config) : Config :=
  {| SymDir := SymDir c; TargetDir := TargetDir c; Verbose := Verbose c;
     Simulate := Simulate c; Delete := true; ReSym := ReSym c;
     Packages := Packages c |}.

Definition with_resym (c : Config) : Config :=
  {| SymDir := SymDir c; TargetDir := TargetDir c; Verbose := Verbose c;
     Simulate := Simulate c; Delete := Delete c; ReSym := true;
     Packages := Packages c |}.

Definition with_verbose (c : Config) : Config :=
  {| SymDir := SymDir c; TargetDir := TargetDir c; Verbose := true;
     Simulate := Simulate c; Delete := Delete c; ReSym := ReSym c;
     Packages := Packages c |}.

End Examples.

(** * Properties *)

(** ** Unfolding the state monad *)

Ltac unfold_M :=
  unfold try, mutate, when, Printf, put_files, get_files, ret,
    mbind, M_bind, mret, M_ret in *.

Ltac run := unfold_M; cbn beta iota zeta.

(** Case analysis on the next file-system call or flag the goal waits
    for. *)
Ltac call_step :=
  match goal with
  | |- context [match Lstat ?σ ?p with _ => _ end] => destruct (Lstat σ p) eqn:?
  | |- context [match Readlink ?σ ?p with _ => _ end] =>
      destruct (Readlink σ p) eqn:?
  | |- context [match MkdirAll ?σ ?p ?m with _ => _ end] =>
      destruct (MkdirAll σ p m) eqn:?
  | |- context [match Symlink_ ?σ ?o ?n with _ => _ end] =>
      destruct (Symlink_ σ o n) eqn:?
  | |- context [match Remove ?σ ?p with _ => _ end] =>
      destruct (Remove σ p) eqn:?
  | |- context [if IsNotExist ?r then _ else _] => destruct (IsNotExist r) eqn:?
  | |- context [if Verbose ?c then _ else _] => destruct (Verbose c) eqn:?
  | |- context [if negb (Simulate ?c) then _ else _] =>
      destruct (Simulate c) eqn:?
  | |- context [if Simulate ?c then _ else _] => destruct (Simulate c) eqn:?
  | |- context [match ?e with ENOENT => _ | _ => _ end] => destruct e
  | |- context [if (?a =? ?b)%Z then _ else _] => destruct (a =? b)%Z eqn:?
  | |- context [if negb (bool_decide ?P) then _ else _] =>
      destruct (bool_decide_reflect P)
  | |- context [if decide ?P then _ else _] => destruct (decide P)
  end; cbn [negb fst snd files stdout].

Ltac calls := run; repeat call_step.

Lemma Lstat_node σ p q nd :
  resolve σ false p = Ok q → node_at σ q = Some nd →
  Lstat σ p = Ok {| Mode := node_mode nd |}.
Proof. intros Hr Hn. unfold Lstat, info_at. by rewrite Hr, Hn. Qed.

Lemma Readlink_symlink σ p q d :
  resolve σ false p = Ok q → node_at σ q = Some (Symlink d) →
  Readlink σ p = Ok d.
Proof. intros Hr Hn. unfold Readlink. by rewrite Hr, Hn. Qed.

Lemma Readlink_other σ p q nd :
  resolve σ false p = Ok q → node_at σ q = Some nd →
  (∀ d, nd ≠ Symlink d) → Readlink σ p = Err EINVAL.
Proof.
  intros Hr Hn Hd. unfold Readlink. rewrite Hr, Hn.
  destruct nd; try done. by destruct (Hd dest).
Qed.

(** ** Conflicts *)

Section conflict.
Context (config : Config) (srcPath targetPath : path) (w : world).

(** C1.  When [targetPath] resolves (the last link not followed) to an
    entry [nd] other than a symbolic link to [srcPath], [createSymlink]
    fails with a Conflict error and leaves the state as it was.  The error
    of a link that points elsewhere names the target, the destination
    found and the one expected; an entry that is no link gives "exists
    and is not a symlink". *)
Theorem createSymlink_conflict (q : path) (nd : node)
    (Hexists : resolve (files w) false targetPath = Ok q)
    (Hnode : node_at (files w) q = Some nd)
    (Hdiff : nd ≠ Symlink (to_string srcPath)) :
  ∃ e, createSymlink config srcPath targetPath w = (Some e, w)
       ∧ is_conflict e = true
       ∧ e = match nd with
             | Symlink link => ErrPointsElsewhere targetPath link srcPath
             | _ => ErrNotASymlink targetPath
             end.
Proof.
  unfold createSymlink. run.
  rewrite (Lstat_node _ _ _ _ Hexists Hnode).
  destruct nd as [perm|perm|link].
  - rewrite (Readlink_other _ _ _ _ Hexists Hnode) by done. eauto.
  - rewrite (Readlink_other _ _ _ _ Hexists Hnode) by done. eauto.
  - rewrite (Readlink_symlink _ _ _ _ Hexists Hnode).
    destruct (decide (link = to_string srcPath)) as [->|_]; [done|eauto].
Qed.
End conflict.

Lemma createSymlink_conflict_witness :
  (∃ e, createSymlink Examples.config0 ["src"; "vim"; ".vimrc"]
          ["home"; "u"; ".vimrc"] Examples.foreign_link
        = (Some e, Examples.foreign_link)
      ∧ is_conflict e = true
      ∧ e = ErrPointsElsewhere ["home"; "u"; ".vimrc"] "/other/.vimrc"
              ["src"; "vim"; ".vimrc"])
  ∧ (∃ e, createSymlink Examples.config0 ["src"; "vim"; ".vimrc"]
            ["home"; "u"; ".vimrc"] Examples.plain_file
          = (Some e, Examples.plain_file)
        ∧ is_conflict e = true
        ∧ e = ErrNotASymlink ["home"; "u"; ".vimrc"]).
Proof.
  split.
  - apply (createSymlink_conflict Examples.config0 ["src"; "vim"; ".vimrc"]
             ["home"; "u"; ".vimrc"] Examples.foreign_link
             ["home"; "u"; ".vimrc"] (Symlink "/other/.vimrc")).
    + vm_compute. reflexivity.
    + vm_compute. reflexivity.
    + vm_compute. discriminate.
  - apply (createSymlink_conflict Examples.config0 ["src"; "vim"; ".vimrc"]
             ["home"; "u"; ".vimrc"] Examples.plain_file
             ["home"; "u"; ".vimrc"] (File 384)).
    + vm_compute. reflexivity.
    + vm_compute. reflexivity.
    + discriminate.
Defined.

(** ** Path resolution *)

Definition normal (c : string) : Prop := ¬ (c = "" ∨ c = ".") ∧ c ≠ "..".

Lemma valid_name_normal c : valid_name c → normal c.
Proof. intros (H0 & H1 & H2 & _). split; [by intros [?|?]|done]. Qed.

(** Every directory reached by a lookup hangs from the root by a chain of
    directories. *)
Inductive dir_chain (σ : fs) : path → Prop :=
| dir_chain_root : dir_chain σ []
| dir_chain_snoc q c perm :
    dir_chain σ q → σ !! (q ++ [c]) = Some (Directory perm) →
    dir_chain σ (q ++ [c]).

Lemma namei_nil n σ f cur : namei n σ f cur [] = Ok cur.
Proof. by destruct n. Qed.

Lemma namei_cons n σ f cur c rest :
  namei n σ f cur (c :: rest) =
    if decide (c = "" ∨ c = ".") then namei n σ f cur rest
    else if decide (c = "..") then namei n σ f (removelast cur) rest
    else
      match σ !! (cur ++ [c]) with
      | None => Err ENOENT
      | Some (Directory _) => namei n σ f (cur ++ [c]) rest
      | Some (File _) =>
          match rest with [] => Ok (cur ++ [c]) | _ => Err ENOTDIR end
      | Some (Symlink d) =>
          match rest, f with
          | [], false => Ok (cur ++ [c])
          | _, _ =>
              match n with
              | O => Err ELOOP
              | S n' =>
                  if decide (d = "") then Err ENOENT
                  else namei n' σ f (if is_abs d then [] else cur)
                         (split d ++ rest)
              end
          end
      end.
Proof. by destruct n. Qed.

Lemma dir_chain_removelast σ q : dir_chain σ q → dir_chain σ (removelast q).
Proof.
  destruct 1 as [|q c perm Hq _]; [constructor|].
  by rewrite removelast_last.
Qed.

Lemma dir_chain_node σ q :
  dir_chain σ q → ∃ perm, node_at σ q = Some (Directory perm).
Proof.
  destruct 1 as [|q c perm _ Hc]; [by eexists|].
  exists perm. unfold node_at. by destruct (q ++ [c]) eqn:E; [destruct q|].
Qed.

(** Looking up [rest ++ [c]] without following a last link is looking up
    [rest], following, and then the name [c] in the directory found. *)
Lemma namei_snoc n σ c :
  normal c → ∀ rest cur, dir_chain σ cur →
  namei n σ false cur (rest ++ [c]) =
    match namei n σ true cur rest with
    | Ok q' =>
        match node_at σ q' with
        | Some (Directory _) =>
            match σ !! (q' ++ [c]) with
            | None => Err ENOENT
            | Some _ => Ok (q' ++ [c])
            end
        | Some _ => Err ENOTDIR
        | None => Err ENOENT
        end
    | Err e => Err e
    end.
Proof.
  intros [Hc1 Hc2].
  assert (Hne : ∀ (rest : list string) (A : Type) (x y : A),
             match rest ++ [c] with [] => x | _ => y end = y)
    by (by intros [|??] ???).
  assert (Hnode : ∀ (cur : path) c', node_at σ (cur ++ [c']) = σ !! (cur ++ [c']))
    by (by intros [|??] ?).
  assert (Hlast : ∀ m cur, dir_chain σ cur →
            namei m σ false cur [c] =
              match node_at σ cur with
              | Some (Directory _) =>
                  match σ !! (cur ++ [c]) with
                  | None => Err ENOENT
                  | Some _ => Ok (cur ++ [c])
                  end
              | Some _ => Err ENOTDIR
              | None => Err ENOENT
              end).
  { intros m cur Hcur. destruct (dir_chain_node _ _ Hcur) as [perm ->].
    rewrite namei_cons. repeat case_decide; try done.
    destruct (σ !! (cur ++ [c])) as [[]|]; by rewrite ?namei_nil. }
  clear Hc1 Hc2.
  induction n as [|n IHn]; intros rest;
    induction rest as [|c' rest IH]; intros cur Hcur; simpl app.
  - by rewrite namei_nil, Hlast.
  - rewrite !namei_cons. repeat case_decide; auto using dir_chain_removelast.
    destruct (σ !! (cur ++ [c'])) as [[perm|perm|d]|] eqn:E; try done.
    + rewrite Hne. destruct rest; [by rewrite Hnode, E|done].
    + apply IH. by econstructor.
    + rewrite Hne. by destruct rest.
  - by rewrite namei_nil, Hlast.
  - rewrite !namei_cons. repeat case_decide; auto using dir_chain_removelast.
    destruct (σ !! (cur ++ [c'])) as [[perm|perm|d]|] eqn:E; try done.
    + rewrite Hne. destruct rest; [by rewrite Hnode, E|done].
    + apply IH. by econstructor.
    + rewrite Hne.
      assert (Hstep : namei n σ false (if is_abs d then [] else cur)
                        (split d ++ rest ++ [c])
                      = match namei n σ true (if is_abs d then [] else cur)
                                (split d ++ rest) with
                        | Ok q' =>
                            match node_at σ q' with
                            | Some (Directory _) =>
                                match σ !! (q' ++ [c]) with
                                | None => Err ENOENT
                                | Some _ => Ok (q' ++ [c])
                                end
                            | Some _ => Err ENOTDIR
                            | None => Err ENOENT
                            end
                        | Err e => Err e
                        end).
      { rewrite app_assoc. apply IHn. destruct (is_abs d); [constructor|done]. }
      case_decide; [by destruct rest|]. by destruct rest.
Qed.

(** A cleaned path: no empty, [.] or [..] component. *)
Definition clean (p : path) : Prop := Forall normal p.

Lemma last_snoc_inv (p : path) c : last p = Some c → p = removelast p ++ [c].
Proof.
  destruct p as [|a p] using rev_ind; [done|].
  rewrite last_snoc, removelast_last. by intros [= ->].
Qed.

Lemma resolve_nofollow σ p c :
  last p = Some c → normal c →
  resolve σ false p =
    match resolve_parent σ p with
    | Ok (q', c) =>
        match σ !! (q' ++ [c]) with
        | None => Err ENOENT
        | Some _ => Ok (q' ++ [c])
        end
    | Err e => Err e
    end.
Proof.
  intros Hl Hc. unfold resolve_parent. rewrite Hl.
  unfold resolve. rewrite (last_snoc_inv _ _ Hl) at 1.
  rewrite namei_snoc by (done || constructor).
  destruct (namei _ _ _ _ _); [|done].
  by destruct (node_at σ a) as [[]|].
Qed.

Lemma clean_last (p : path) c : clean p → last p = Some c → normal c.
Proof.
  intros Hp Hl. rewrite (last_snoc_inv _ _ Hl) in Hp.
  apply Forall_app in Hp as [_ Hc]. by inversion Hc.
Qed.

(** Adding entries does not disturb a lookup that succeeded. *)
Lemma namei_mono (n : nat) (σ σ' : fs) (f : bool) :
  σ ⊆ σ' → ∀ rest cur q,
  namei n σ f cur rest = Ok q → namei n σ' f cur rest = Ok q.
Proof.
  intros Hsub. induction n as [|n IHn]; intros rest;
    induction rest as [|c rest IH]; intros cur q; rewrite ?namei_nil; try done.
  all: rewrite !namei_cons; repeat case_decide; auto.
  all: destruct (σ !! (cur ++ [c])) as [nd|] eqn:E; [|done].
  all: rewrite (lookup_weaken _ _ _ _ E Hsub).
  all: destruct nd; auto.
  case_decide; [done|]. destruct rest, f; auto.
Qed.

Lemma node_at_mono (σ σ' : fs) q nd :
  σ ⊆ σ' → node_at σ q = Some nd → node_at σ' q = Some nd.
Proof.
  intros Hsub. destruct q; [done|]. simpl. intros E.
  by apply (lookup_weaken _ _ _ _ E Hsub).
Qed.

Lemma resolve_parent_mono (σ σ' : fs) p r :
  σ ⊆ σ' → resolve_parent σ p = Ok r → resolve_parent σ' p = Ok r.
Proof.
  intros Hsub. unfold resolve_parent, resolve.
  destruct (last p); [|done].
  destruct (namei _ σ _ _ _) as [q|] eqn:E; [|done].
  rewrite (namei_mono _ _ _ _ Hsub _ _ _ E).
  destruct (node_at σ q) as [nd|] eqn:En; [|done].
  rewrite (node_at_mono _ _ _ _ Hsub En). by destruct nd.
Qed.

(** What the mutating calls do when they succeed. *)
Lemma Symlink_Ok σ old new σ' :
  Symlink_ σ old new = Ok σ' →
  ∃ q c, resolve_parent σ new = Ok (q, c) ∧ σ !! (q ++ [c]) = None
         ∧ σ' = <[q ++ [c] := Symlink old]> σ.
Proof.
  unfold Symlink_. case_decide; [done|].
  destruct (resolve_parent σ new) as [[q c]|] eqn:E; [|done].
  destruct (σ !! (q ++ [c])) eqn:El; [done|]. intros [= <-]. eauto.
Qed.

Lemma Mkdir_Ok σ name perm σ' :
  Mkdir σ name perm = Ok σ' →
  ∃ q c, resolve_parent σ name = Ok (q, c) ∧ σ !! (q ++ [c]) = None
         ∧ σ' = <[q ++ [c] := Directory (Z.land perm ModePerm)]> σ.
Proof.
  unfold Mkdir.
  destruct (resolve_parent σ name) as [[q c]|] eqn:E; [|done].
  destruct (σ !! (q ++ [c])) eqn:El; [done|]. intros [= <-]. eauto.
Qed.

Lemma resolve_parent_last σ p q c :
  resolve_parent σ p = Ok (q, c) → last p = Some c.
Proof.
  unfold resolve_parent. destruct (last p); [|done].
  destruct (resolve _ _ _); [|done].
  destruct (node_at _ _) as [[]|]; try done. by intros [= _ ->].
Qed.

Lemma Symlink_Lstat σ old new σ' :
  clean new → Symlink_ σ old new = Ok σ' →
  ∃ q, resolve σ' false new = Ok q ∧ node_at σ' q = Some (Symlink old)
       ∧ σ !! q = None ∧ σ' = <[q := Symlink old]> σ.
Proof.
  intros Hclean (q & c & Hp & Hnone & ->)%Symlink_Ok.
  exists (q ++ [c]). pose proof (resolve_parent_last _ _ _ _ Hp) as Hl.
  rewrite (resolve_nofollow _ _ c Hl) by eauto using clean_last.
  rewrite (resolve_parent_mono σ _ _ _ (insert_subseteq _ _ _ Hnone) Hp).
  rewrite lookup_insert_eq. split_and!; try done.
  destruct (q ++ [c]) eqn:E; [by destruct q|]. simpl. by rewrite lookup_insert_eq.
Qed.

Lemma Remove_symlink σ p q d :
  clean p → resolve σ false p = Ok q → node_at σ q = Some (Symlink d) →
  Remove σ p = Ok (delete q σ).
Proof.
  intros Hclean Hr Hn. destruct (last p) as [c|] eqn:Hl.
  - rewrite (resolve_nofollow _ _ c Hl) in Hr by eauto using clean_last.
    unfold Remove. destruct (resolve_parent σ p) as [[q' c']|]; [|done].
    destruct (σ !! (q' ++ [c'])) as [nd|] eqn:E; [|done].
    injection Hr as <-.
    assert (nd = Symlink d) as ->; [|done].
    destruct (q' ++ [c']) eqn:E'; [by destruct q'|]. simpl in Hn. congruence.
  - apply last_None in Hl as ->. by vm_compute in Hr; injection Hr as <-.
Qed.

(** ** Links whose destination is gone *)

Section dangling.
Context (config : Config) (srcPath targetPath : path) (w : world).

(** C10.  The decisions look at the entry at [targetPath] itself: when it
    is a symbolic link whose stored destination is the text of [srcPath],
    whether or not that destination exists, [createSymlink] reports
    success and leaves the files alone, and [removeSymlink] reports
    success and removes the link (unless simulating). *)
Theorem link_status_decides (q : path)
    (Hclean : clean targetPath)
    (Hlink : resolve (files w) false targetPath = Ok q)
    (Hdest : node_at (files w) q = Some (Symlink (to_string srcPath))) :
  (∃ w', createSymlink config srcPath targetPath w = (None, w')
         ∧ files w' = files w)
  ∧ (∃ w', removeSymlink config srcPath targetPath w = (None, w')
           ∧ files w' = if Simulate config then files w
                        else delete q (files w)).
Proof.
  split.
  - unfold createSymlink. run.
    rewrite (Lstat_node _ _ _ _ Hlink Hdest),
      (Readlink_symlink _ _ _ _ Hlink Hdest).
    rewrite decide_True by done. destruct (Verbose config); eauto.
  - unfold removeSymlink. run.
    rewrite (Lstat_node _ _ _ _ Hlink Hdest),
      (Readlink_symlink _ _ _ _ Hlink Hdest).
    rewrite bool_decide_eq_true_2 by done. simpl.
    destruct (Verbose config), (Simulate config); simpl; eauto.
    all: rewrite (Remove_symlink _ _ _ _ Hclean Hlink Hdest); eauto.
Qed.
End dangling.

Lemma link_status_decides_witness :
  Stat (files Examples.dangling) ["home"; "u"; "gone"] = Err ENOENT
  ∧ (∃ w', createSymlink Examples.config0 ["src"; "vim"; "gone"]
             ["home"; "u"; "gone"] Examples.dangling = (None, w')
           ∧ files w' = files Examples.dangling)
  ∧ (∃ w', removeSymlink Examples.config0 ["src"; "vim"; "gone"]
             ["home"; "u"; "gone"] Examples.dangling = (None, w')
           ∧ files w' = delete ["home"; "u"; "gone"] (files Examples.dangling)).
Proof.
  split; [by vm_compute|].
  apply (link_status_decides Examples.config0 ["src"; "vim"; "gone"]
           ["home"; "u"; "gone"] Examples.dangling ["home"; "u"; "gone"]).
  - repeat constructor; vm_compute; intros; intuition discriminate.
  - vm_compute. reflexivity.
  - vm_compute. reflexivity.
Defined.

(** ** Invariants of a walk *)

Section walk_invariant.
Context (P : world → Prop) (Q : error → Prop) (fn : WalkFunc).
Hypothesis fn_keeps : ∀ p info err w,
  P w → (∀ e, err = Some e → Q e) →
  P (fn p info err w).2 ∧ ∀ e, (fn p info err w).1 = Some e → Q e.
Hypothesis Q_PathError : ∀ op p e, Q (PathError op p e).

Lemma each_name_invariant walk_child p names :
  (∀ f i w r, P w → walk_child f i w = Some r →
              P r.2 ∧ ∀ e, r.1 = Some e → Q e) →
  ∀ w r, P w → each_name walk_child fn p names w = Some r →
         P r.2 ∧ ∀ e, r.1 = Some e → Q e.
Proof.
  intros Hchild. induction names as [|name names IHnames]; intros w1 r HP1.
  { intros [= <-]. by split. }
  cbn [each_name].
  destruct (Lstat (files w1) (p ++ [name])) as [fi|e].
  - destruct (walk_child (p ++ [name]) fi w1) as [[[e'|] w']|] eqn:E.
    + intros [= <-]. by apply (Hchild _ _ _ _ HP1) in E.
    + apply (Hchild _ _ _ _ HP1) in E as [HP' _]. by apply IHnames.
    + done.
  - pose proof (fn_keeps (p ++ [name]) None
                  (Some (PathError "lstat" (p ++ [name]) e)) w1 HP1) as Hfn.
    destruct (fn _ None _ w1) as [[e'|] w']; simpl in Hfn.
    + intros [= <-]. apply Hfn. by intros ? [= <-].
    + apply IHnames, Hfn. by intros ? [= <-].
Qed.

Lemma walk_invariant fuel : ∀ p info w r,
  P w → walk fuel p info fn w = Some r →
  P r.2 ∧ ∀ e, r.1 = Some e → Q e.
Proof.
  induction fuel as [|fuel IH]; intros p info w r HP; [done|].
  cbn [walk]. destruct (IsDir info); cbn [negb].
  2: { intros [= <-]. by apply fn_keeps. }
  set (names := readDirNames (files w) p).
  set (err := match names with Ok _ => None | Err e => Some (PathError "open" p e) end).
  assert (Herr : ∀ e, err = Some e → Q e).
  { subst err. destruct names; intros ? [= <-]; auto. }
  pose proof (fn_keeps p (Some info) err w HP Herr) as Hfn.
  destruct (fn p (Some info) err w) as [err1 w1]. simpl in Hfn.
  destruct names as [names|e0]; [|by intros [= <-]].
  destruct err1 as [e1|]; [by intros [= <-]|].
  destruct Hfn as [HP1 _]. apply each_name_invariant; [|done].
  intros f i w' r'. apply IH.
Qed.

Lemma Walk_invariant fuel root w r :
  P w → Walk fuel root fn w = Some r → P r.2 ∧ ∀ e, r.1 = Some e → Q e.
Proof.
  intros HP. unfold Walk. destruct (Lstat (files w) root).
  - by apply walk_invariant.
  - intros [= <-]. apply fn_keeps; [done|]. by intros ? [= <-].
Qed.
End walk_invariant.

(** ** Which errors a phase can return *)

(** Errors of the link phase: what [filepath.Walk] hands down, and the
    four failures of [symPackage] and [createSymlink]. *)
Definition link_phase_error (e : error) : bool :=
  match e with
  | PathError _ _ _ | ErrCreateDirectory _ _ | ErrPointsElsewhere _ _ _
  | ErrNotASymlink _ | ErrCreateParent _ _ | ErrCreateSymlink _ _ _ => true
  | _ => false
  end.

(** Errors of the unlink phase. *)
Definition unlink_phase_error (e : error) : bool :=
  match e with
  | PathError _ _ _ | ErrRemoveSymlink _ _ => true
  | _ => false
  end.

Lemma createSymlink_error config srcPath targetPath w e :
  (createSymlink config srcPath targetPath w).1 = Some e →
  link_phase_error e = true ∧ is_not_found e = false.
Proof.
  unfold createSymlink. calls; try done; by intros [= <-].
Qed.

Lemma symVisit_error config pkgPath p info err w e :
  (∀ e, err = Some e → link_phase_error e = true) →
  (symVisit config pkgPath p info err w).1 = Some e →
  link_phase_error e = true.
Proof.
  intros Herr. unfold symVisit.
  destruct err as [e0|]; [intros [= <-]; auto|].
  destruct info as [info|]; [|done]. case_decide; [done|].
  destruct (IsDir info).
  - calls; try done; by intros [= <-].
  - run. destruct (createSymlink _ _ _ _) as [[e'|] w'] eqn:E; [|done].
    simpl. intros [= <-]. eapply createSymlink_error. by rewrite E.
Qed.

Lemma symPackage_error fuel config pkg pkgPath w e w' :
  symPackage fuel config pkg pkgPath w = Some (Some e, w') →
  link_phase_error e = true.
Proof.
  unfold symPackage. destruct (when _ _ w) as [_u w0]. intros HW.
  eapply (Walk_invariant (λ _, True) (λ e, link_phase_error e = true)) in HW;
    [by apply HW| |done|done].
  intros p info err w1 _ Herr. split; [done|].
  intros e'. by apply symVisit_error.
Qed.

(** ** Dispatch by mode *)

Section dispatch.
Context (fuel : nat) (config : Config) (pkg : string) (w : world).
Let pkgPath := Join (SymDir config) pkg.

(** C6.  Once the package directory is found, [ProcessPackage] dispatches
    on the mode.  Relink: the unlink walk runs first; if it fails, the
    result is its error wrapped as "failed to unsym during resym" in the
    state the unlink walk left, and the link walk is not run; otherwise
    the link walk runs on that state, and none of its errors carries that
    wrapper.  Delete: the unlink walk alone.  Otherwise: the link walk
    alone. *)
Theorem ProcessPackage_dispatch
    (Hfound : IsNotExist (Stat (files w) pkgPath) = false) :
  (ReSym config = true →
     match unsymPackage fuel config pkg pkgPath w with
     | None => ProcessPackage fuel config pkg w = None
     | Some (Some err, w') =>
         ProcessPackage fuel config pkg w
         = Some (Some (ErrUnsymDuringResym err), w')
     | Some (None, w') =>
         ProcessPackage fuel config pkg w
         = symPackage fuel config pkg pkgPath w'
         ∧ ∀ e w'', symPackage fuel config pkg pkgPath w' = Some (Some e, w'') →
                    ∀ cause, e ≠ ErrUnsymDuringResym cause
     end)
  ∧ (ReSym config = false → Delete config = true →
       ProcessPackage fuel config pkg w
       = unsymPackage fuel config pkg pkgPath w)
  ∧ (ReSym config = false → Delete config = false →
       ProcessPackage fuel config pkg w
       = symPackage fuel config pkg pkgPath w).
Proof.
  unfold ProcessPackage. fold pkgPath. rewrite Hfound.
  split_and!.
  - intros ->. destruct (unsymPackage _ _ _ _ _) as [[[err|] w']|]; try done.
    split; [done|]. intros e w'' He cause ->.
    by apply symPackage_error in He.
  - by intros -> ->.
  - by intros -> ->.
Qed.
End dispatch.

Lemma ProcessPackage_dispatch_witness :
  ProcessPackage 8 Examples.config0 "vim" Examples.fresh
  = symPackage 8 Examples.config0 "vim"
      (Join (SymDir Examples.config0) "vim") Examples.fresh
  ∧ ProcessPackage 8 (Examples.with_delete Examples.config0) "vim" Examples.fresh
    = unsymPackage 8 (Examples.with_delete Examples.config0) "vim"
        (Join (SymDir (Examples.with_delete Examples.config0)) "vim")
        Examples.fresh.
Proof.
  assert (Hfound : IsNotExist (Stat (files Examples.fresh)
                     (Join (SymDir Examples.config0) "vim")) = false)
    by (vm_compute; reflexivity).
  split.
  - pose proof (ProcessPackage_dispatch 8 Examples.config0 "vim"
                  Examples.fresh Hfound) as (_ & _ & Hlink).
    exact (Hlink eq_refl eq_refl).
  - pose proof (ProcessPackage_dispatch 8 (Examples.with_delete Examples.config0)
                  "vim" Examples.fresh Hfound) as (_ & Hdel & _).
    exact (Hdel eq_refl eq_refl).
Defined.

(** ** Resolving the package *)



Lemma removeSymlink_error config srcPath targetPath w e :
  (removeSymlink config srcPath targetPath w).1 = Some e →
  unlink_phase_error e = true.
Proof.
  unfold removeSymlink. calls; try done; by intros [= <-].
Qed.

Lemma unsymVisit_error config pkgPath p info err w e :
  (∀ e, err = Some e → unlink_phase_error e = true) →
  (unsymVisit config pkgPath p info err w).1 = Some e →
  unlink_phase_error e = true.
Proof.
  intros Herr. unfold unsymVisit.
  destruct err as [e0|]; [intros [= <-]; auto|].
  destruct info as [info|]; [|done]. case_decide; [done|].
  destruct (IsDir info); [done|]. cbn [negb]. run.
  destruct (removeSymlink _ _ _ _) as [[e'|] w'] eqn:E; [|done].
  simpl. intros [= <-]. eapply removeSymlink_error. by rewrite E.
Qed.

Lemma unsymPackage_error fuel config pkg pkgPath w e w' :
  unsymPackage fuel config pkg pkgPath w = Some (Some e, w') →
  unlink_phase_error e = true.
Proof.
  unfold unsymPackage. destruct (when _ _ w) as [_u w0]. intros HW.
  eapply (Walk_invariant (λ _, True) (λ e, unlink_phase_error e = true)) in HW;
    [by apply HW| |done|done].
  intros p info err w1 _ Herr. split; [done|].
  intros e'. by apply unsymVisit_error.
Qed.

Section not_found.
Context (fuel : nat) (config : Config) (pkg : string) (w : world).
Let pkgPath := Join (SymDir config) pkg.

End not_found.


(** ** Simulate mode *)

Lemma when_files b m w :
  (∀ w, files (m w).2 = files w) → files (when b m w).2 = files w.
Proof. intros Hm. destruct b; [apply Hm|done]. Qed.

Lemma createSymlink_simulate config srcPath targetPath w :
  Simulate config = true →
  files (createSymlink config srcPath targetPath w).2 = files w.
Proof.
  intros Hsim. unfold createSymlink. rewrite Hsim.
  calls; done.
Qed.

Lemma removeSymlink_simulate config srcPath targetPath w :
  Simulate config = true →
  files (removeSymlink config srcPath targetPath w).2 = files w.
Proof.
  intros Hsim. unfold removeSymlink. rewrite Hsim.
  calls; done.
Qed.

Lemma symVisit_simulate config pkgPath p info err w :
  Simulate config = true →
  files (symVisit config pkgPath p info err w).2 = files w.
Proof.
  intros Hsim. unfold symVisit.
  destruct err; [done|]. destruct info as [info|]; [|done].
  case_decide; [done|]. destruct (IsDir info).
  - rewrite Hsim. calls; done.
  - run. pose proof (createSymlink_simulate config p
                       (JoinRel (TargetDir config) (Rel pkgPath p)) w Hsim).
    by destruct (createSymlink _ _ _ _) as [[?|] ?].
Qed.

Lemma unsymVisit_simulate config pkgPath p info err w :
  Simulate config = true →
  files (unsymVisit config pkgPath p info err w).2 = files w.
Proof.
  intros Hsim. unfold unsymVisit.
  destruct err; [done|]. destruct info as [info|]; [|done].
  case_decide; [done|]. destruct (IsDir info); [done|]. cbn [negb].
  run. pose proof (removeSymlink_simulate config p
                     (JoinRel (TargetDir config) (Rel pkgPath p)) w Hsim).
  by destruct (removeSymlink _ _ _ _) as [[?|] ?].
Qed.

Lemma symPackage_simulate fuel config pkg pkgPath w r :
  Simulate config = true →
  symPackage fuel config pkg pkgPath w = Some r → files r.2 = files w.
Proof.
  intros Hsim. unfold symPackage.
  destruct (when _ _ w) as [u w0] eqn:Ew.
  assert (files w0 = files w) as <-.
  { replace w0 with (when (Verbose config) (Printf ("Stowing package: " +:+ pkg)) w).2
      by (by rewrite Ew). by apply when_files. }
  intros HW.
  eapply (Walk_invariant (λ w', files w' = files w0) (λ _, True)) in HW;
    [by apply HW| |done|done].
  intros p info err w1 Hw1 _. split; [|done].
  by rewrite symVisit_simulate.
Qed.

Lemma unsymPackage_simulate fuel config pkg pkgPath w r :
  Simulate config = true →
  unsymPackage fuel config pkg pkgPath w = Some r → files r.2 = files w.
Proof.
  intros Hsim. unfold unsymPackage.
  destruct (when _ _ w) as [u w0] eqn:Ew.
  assert (files w0 = files w) as <-.
  { replace w0 with (when (Verbose config) (Printf ("Unstowing package: " +:+ pkg)) w).2
      by (by rewrite Ew). by apply when_files. }
  intros HW.
  eapply (Walk_invariant (λ w', files w' = files w0) (λ _, True)) in HW;
    [by apply HW| |done|done].
  intros p info err w1 Hw1 _. split; [|done].
  by rewrite unsymVisit_simulate.
Qed.

Lemma ProcessPackage_simulate fuel config pkg w r :
  Simulate config = true →
  ProcessPackage fuel config pkg w = Some r → files r.2 = files w.
Proof.
  intros Hsim. unfold ProcessPackage.
  destruct (IsNotExist _); [by intros [= <-]|].
  destruct (ReSym config).
  - destruct (unsymPackage _ _ _ _ _) as [[[e|] w']|] eqn:E; [| |done].
    + intros [= <-]. by apply unsymPackage_simulate in E.
    + intros H. apply symPackage_simulate in H; [|done].
      apply unsymPackage_simulate in E; [|done]. simpl in *. congruence.
  - destruct (Delete config);
      eauto using unsymPackage_simulate, symPackage_simulate.
Qed.



Section simulate.
Context (fuel : nat) (config : Config) (pkg : string) (w : world).
Let pkgPath := Join (SymDir config) pkg.

End simulate.


(** ** Mode bits *)

Lemma perm_no_type_bits perm (bit : Z) :
  Z.land ModePerm bit = 0%Z → Z.land (Z.land perm ModePerm) bit = 0%Z.
Proof. intros H. by rewrite <-Z.land_assoc, H, Z.land_0_r. Qed.

Lemma node_mode_symlink nd :
  (Z.land (node_mode nd) ModeSymlink =? 0)%Z
  = match nd with Symlink _ => false | _ => true end.
Proof.
  destruct nd as [perm|perm|d]; simpl.
  - by rewrite perm_no_type_bits.
  - by rewrite Z.land_lor_distr_l, perm_no_type_bits.
  - done.
Qed.

Lemma node_mode_dir nd :
  IsDir {| Mode := node_mode nd |}
  = match nd with Directory _ => true | _ => false end.
Proof.
  unfold IsDir. destruct nd as [perm|perm|d]; simpl.
  - by rewrite perm_no_type_bits.
  - rewrite Z.land_lor_distr_l, perm_no_type_bits by done. done.
  - done.
Qed.

Lemma clean_removelast (p : path) : clean p → clean (removelast p).
Proof.
  intros Hp. destruct p as [|c p] using rev_ind; [done|].
  rewrite removelast_last. by apply Forall_app in Hp as [? _].
Qed.

Lemma clean_onto_clean dir comps : clean dir → clean (clean_onto dir comps).
Proof.
  revert dir. induction comps as [|c comps IH]; intros dir Hdir; [done|].
  simpl. repeat case_decide; auto using clean_removelast.
  apply IH, Forall_app. split; [done|]. by repeat constructor.
Qed.

(** ** Unlinking one entry *)

(** What [removeSymlink] does, by what [targetPath] is. *)
Lemma removeSymlink_cases config srcPath targetPath w :
  clean targetPath →
  let out := removeSymlink config srcPath targetPath w in
  match resolve (files w) false targetPath with
  | Ok q =>
      match node_at (files w) q with
      | Some (Symlink d) =>
          if decide (d = to_string srcPath) then
            out.1 = None
            ∧ files out.2 = if Simulate config then files w
                            else delete q (files w)
          else out.1 = None ∧ files out.2 = files w
      | _ => out.1 = None ∧ files out.2 = files w
      end
  | Err ENOENT => out.1 = None ∧ files out.2 = files w
  | Err e => out = (Some (PathError "lstat" targetPath e), w)
  end.
Proof.
  intros Hclean. unfold removeSymlink, Lstat, Readlink, info_at. run.
  destruct (resolve (files w) false targetPath) as [q|e] eqn:Hr.
  2: { destruct e; calls; done. }
  destruct (node_at (files w) q) as [nd|] eqn:Hn.
  2: { calls; done. }
  cbn [Mode]. rewrite node_mode_symlink.
  destruct nd as [perm|perm|d]; try (calls; done).
  destruct (decide (d = to_string srcPath)) as [->|Hne].
  - rewrite bool_decide_eq_true_2 by done. cbn [negb].
    destruct (Verbose config), (Simulate config); cbn [negb files stdout];
      try done.
    all: by rewrite (Remove_symlink _ _ _ _ Hclean Hr Hn).
  - rewrite bool_decide_eq_false_2 by done. calls; done.
Qed.

Section unlink_safety.
Context (config : Config) (pkgPath p : path) (info : FileInfo) (w : world).
Let targetPath := JoinRel (TargetDir config) (Rel pkgPath p).
Let out := unsymVisit config pkgPath p (Some info) None w.

(** One step of the unlink walk, at an entry [p] below the package root. *)
Lemma unsymVisit_cases
    (Hclean : clean (TargetDir config)) (Hbelow : p ≠ pkgPath) :
  (IsDir info = true → out = (None, w))
  ∧ (files out.2 ≠ files w →
       IsDir info = false ∧ Simulate config = false
       ∧ ∃ q, resolve (files w) false targetPath = Ok q
              ∧ node_at (files w) q = Some (Symlink (to_string p))
              ∧ out.1 = None
              ∧ files out.2 = delete q (files w))
  ∧ (Lstat (files w) targetPath = Err ENOENT →
       out.1 = None ∧ files out.2 = files w)
  ∧ (∀ q nd, resolve (files w) false targetPath = Ok q →
       node_at (files w) q = Some nd → nd ≠ Symlink (to_string p) →
       out.1 = None ∧ files out.2 = files w).
Proof.
  assert (Hout : IsDir info = false →
                 out.1 = (removeSymlink config p targetPath w).1
                 ∧ out.2 = (removeSymlink config p targetPath w).2).
  { intros Hd. unfold out, unsymVisit. rewrite decide_False, Hd by done.
    cbn [negb]. run. fold targetPath.
    by destruct (removeSymlink _ _ _ _) as [[?|] ?]. }
  assert (Hdir : IsDir info = true → out = (None, w)).
  { intros Hd. unfold out, unsymVisit. by rewrite decide_False, Hd by done. }
  pose proof (removeSymlink_cases config p targetPath w
                (clean_onto_clean _ _ Hclean)) as Hcases.
  cbn zeta in Hcases.
  split_and!; [done|..].
  - intros Hchg. destruct (IsDir info) eqn:Hd.
    { rewrite Hdir in Hchg by done. done. }
    destruct (Hout eq_refl) as [H1 H2]. rewrite H1, H2 in *. clear H1 H2.
    split; [done|].
    destruct (resolve _ _ _) as [q|e].
    2: { exfalso. apply Hchg.
         destruct e; first [by destruct Hcases | by rewrite Hcases]. }
    destruct (node_at _ q) as [[?|?|d]|] eqn:Hn; try (by destruct Hcases).
    case_decide as Hd'; [|by destruct Hcases]. subst d.
    destruct Hcases as [He Hf]. destruct (Simulate config); [done|].
    split; [done|]. by exists q.
  - unfold Lstat. intros HL. destruct (IsDir info) eqn:Hd.
    { by rewrite Hdir. }
    destruct (Hout eq_refl) as [-> ->].
    destruct (resolve _ _ _) as [q|e]; [|by injection HL as ->].
    unfold info_at in HL. by destruct (node_at _ q) as [[]|].
  - intros q nd Hr Hn Hne. destruct (IsDir info) eqn:Hd.
    { by rewrite Hdir. }
    destruct (Hout eq_refl) as [-> ->]. rewrite Hr, Hn in Hcases.
    destruct nd as [| |d]; try done. case_decide; [by subst|done].
Qed.
End unlink_safety.

(** [σ'] is [σ] with some symbolic links taken away, and nothing else
    changed. *)
Definition only_links_removed (σ σ' : fs) : Prop :=
  ∀ k, σ' !! k = σ !! k ∨ (σ' !! k = None ∧ ∃ d, σ !! k = Some (Symlink d)).

Lemma only_links_removed_refl σ : only_links_removed σ σ.
Proof. intros k. by left. Qed.

Lemma only_links_removed_delete σ σ' q d :
  only_links_removed σ σ' → node_at σ' q = Some (Symlink d) →
  only_links_removed σ (delete q σ').
Proof.
  intros H Hq k. destruct (decide (k = q)) as [->|Hne].
  - right. rewrite lookup_delete_eq. split; [done|].
    destruct q; [done|]. simpl in Hq.
    destruct (H (s :: q)) as [E|[E _]]; [|congruence]. exists d. congruence.
  - rewrite lookup_delete_ne by done. apply H.
Qed.

Lemma unsymVisit_only_links config pkgPath p info err w σ :
  clean (TargetDir config) →
  only_links_removed σ (files w) →
  only_links_removed σ (files (unsymVisit config pkgPath p info err w).2).
Proof.
  intros Hclean HP.
  destruct err as [e|]; [done|]. destruct info as [info|]; [|done].
  destruct (decide (p = pkgPath)) as [->|Hne].
  { unfold unsymVisit. by rewrite decide_True. }
  destruct (unsymVisit_cases config pkgPath p info w Hclean Hne)
    as (_ & Hchg & _).
  destruct (decide (files (unsymVisit config pkgPath p (Some info) None w).2
                    = files w)) as [->|Hd]; [done|].
  destruct (Hchg Hd) as (_ & _ & q & _ & Hn & _ & ->).
  by eapply only_links_removed_delete.
Qed.

Lemma unsymPackage_only_links fuel config pkg pkgPath w r :
  clean (TargetDir config) →
  unsymPackage fuel config pkg pkgPath w = Some r →
  only_links_removed (files w) (files r.2).
Proof.
  intros Hclean. unfold unsymPackage.
  destruct (when _ _ w) as [u w0] eqn:Ew.
  assert (files w0 = files w) as <-.
  { replace w0 with (when (Verbose config) (Printf ("Unstowing package: " +:+ pkg)) w).2
      by (by rewrite Ew). by apply when_files. }
  intros HW.
  eapply (Walk_invariant (λ w', only_links_removed (files w0) (files w'))
            (λ _, True)) in HW;
    [by apply HW| |done|apply only_links_removed_refl].
  intros p info err w1 Hw1 _. split; [|done].
  by apply unsymVisit_only_links.
Qed.

Section unlink_walk.
Context (config : Config) (Hclean : clean (TargetDir config)).

End unlink_walk.


(** ** The target of an entry *)





(** A lookup that ends at something other than a link is the same lookup
    whether or not a last link would be followed. *)
Lemma namei_follow (n : nat) (σ : fs) q :
  (∀ d, node_at σ q ≠ Some (Symlink d)) →
  ∀ rest cur, namei n σ false cur rest = Ok q → namei n σ true cur rest = Ok q.
Proof.
  intros Hq.
  assert (Hnode : ∀ (cur : path) c, node_at σ (cur ++ [c]) = σ !! (cur ++ [c]))
    by (by intros [|??] ?).
  induction n as [|n IHn]; intros rest;
    induction rest as [|c rest IH]; intros cur; rewrite ?namei_nil; try done.
  all: rewrite !namei_cons; repeat case_decide; auto.
  all: destruct (σ !! (cur ++ [c])) as [[perm|perm|d]|] eqn:E; auto.
  all: destruct rest; auto; try (case_decide; by auto).
  all: intros [= <-]; exfalso; eapply Hq; by rewrite Hnode.
Qed.

Lemma Stat_of_Lstat σ p q nd :
  resolve σ false p = Ok q → node_at σ q = Some nd →
  (∀ d, nd ≠ Symlink d) →
  Stat σ p = Ok {| Mode := node_mode nd |}.
Proof.
  intros Hr Hn Hnd. unfold Stat, resolve, info_at.
  rewrite (namei_follow _ σ q); [by rewrite Hn| |done].
  intros d. rewrite Hn. intros [= ->]. by eapply Hnd.
Qed.

(** ** Making directories *)

(** [σ'] is [σ] with some directories of permission bits [perm] added. *)
Definition dirs_added (perm : Z) (σ σ' : fs) : Prop :=
  σ ⊆ σ'
  ∧ ∀ k nd, σ !! k = None → σ' !! k = Some nd →
            nd = Directory (Z.land perm ModePerm).

Lemma dirs_added_refl perm σ : dirs_added perm σ σ.
Proof. split; [done|]. intros k nd H1 H2. congruence. Qed.

Lemma dirs_added_trans perm σ1 σ2 σ3 :
  dirs_added perm σ1 σ2 → dirs_added perm σ2 σ3 → dirs_added perm σ1 σ3.
Proof.
  intros [S1 D1] [S2 D2]. split; [by etrans|].
  intros k nd H1 H3. destruct (σ2 !! k) as [nd2|] eqn:E2.
  - pose proof (lookup_weaken _ _ _ _ E2 S2). apply (D1 k); congruence.
  - by apply (D2 k).
Qed.

Lemma Mkdir_Lstat σ p perm σ' :
  clean p → Mkdir σ p perm = Ok σ' →
  dirs_added perm σ σ'
  ∧ ∃ q, resolve σ' false p = Ok q
         ∧ node_at σ' q = Some (Directory (Z.land perm ModePerm)).
Proof.
  intros Hclean (q & c & Hp & Hnone & ->)%Mkdir_Ok.
  pose proof (insert_subseteq σ (q ++ [c])
                (Directory (Z.land perm ModePerm)) Hnone) as Hsub.
  split.
  - split; [done|]. intros k nd Hk. destruct (decide (k = q ++ [c])) as [->|].
    + rewrite lookup_insert_eq. congruence.
    + rewrite lookup_insert_ne by done. congruence.
  - exists (q ++ [c]). pose proof (resolve_parent_last _ _ _ _ Hp) as Hl.
    rewrite (resolve_nofollow _ _ c Hl) by eauto using clean_last.
    rewrite (resolve_parent_mono σ _ _ _ Hsub Hp).
    rewrite lookup_insert_eq. split; [done|].
    destruct (q ++ [c]) eqn:E; [by destruct q|]. simpl.
    by rewrite lookup_insert_eq.
Qed.

Lemma Lstat_dir_node σ p fi :
  Lstat σ p = Ok fi → IsDir fi = true →
  ∃ q perm, resolve σ false p = Ok q ∧ node_at σ q = Some (Directory perm).
Proof.
  unfold Lstat, info_at. destruct (resolve σ false p) as [q|]; [|done].
  destruct (node_at σ q) as [nd|] eqn:E; [|done]. intros [= <-].
  rewrite node_mode_dir. destruct nd; try done. eauto.
Qed.

Lemma Stat_dir_of_Lstat σ p fi :
  Lstat σ p = Ok fi → IsDir fi = true → Stat σ p = Ok fi.
Proof.
  intros HL Hd. destruct (Lstat_dir_node _ _ _ HL Hd) as (q & perm & Hr & Hn).
  rewrite (Stat_of_Lstat _ _ _ _ Hr Hn) by done.
  unfold Lstat, info_at in HL. by rewrite Hr, Hn in HL.
Qed.

Lemma MkdirAll_rev_spec perm : ∀ rp σ slash σ',
  clean (rev rp) → MkdirAll_rev σ rp slash perm = Ok σ' →
  dirs_added perm σ σ'
  ∧ (slash = false → ∃ fi, Stat σ' (rev rp) = Ok fi ∧ IsDir fi = true).
Proof.
  assert (Hprobe : ∀ (rp : list string) (σ : fs) (slash : bool) fi,
            Stat σ (rev rp ++ (if slash then [""] else [])) = Ok fi →
            IsDir fi = true →
            slash = false → ∃ fi, Stat σ (rev rp) = Ok fi ∧ IsDir fi = true).
  { intros rp σ slash fi HS Hd ->. rewrite app_nil_r in HS. eauto. }
  induction rp as [|c rp IH]; intros σ slash σ' Hclean; cbn [MkdirAll_rev].
  - destruct (Stat σ _) as [fi|] eqn:E; [|done].
    destruct (IsDir fi) eqn:Ed; [|done]. intros [= <-].
    split; [apply dirs_added_refl|eauto].
  - destruct (Stat σ _) as [fi|] eqn:E.
    { destruct (IsDir fi) eqn:Ed; [|done]. intros [= <-].
      split; [apply dirs_added_refl|eauto]. }
    destruct (MkdirAll_rev σ rp true perm) as [σ1|] eqn:E1; [|done].
    apply IH in E1 as [Hadd1 _];
      [|simpl in Hclean; apply Forall_app in Hclean as [? _]; done].
    destruct (Mkdir σ1 (rev (c :: rp)) perm) as [σ2|] eqn:E2.
    + intros [= <-].
      apply Mkdir_Lstat in E2 as [Hadd2 (q & Hr & Hn)]; [|exact Hclean].
      split; [exact (dirs_added_trans _ _ _ _ Hadd1 Hadd2)|]. intros _.
      exists {| Mode := node_mode (Directory (Z.land perm ModePerm)) |}.
      split; [|by rewrite node_mode_dir].
      apply (Stat_of_Lstat _ _ _ _ Hr Hn). by intros d.
    + destruct (Lstat σ1 _) as [fi|] eqn:EL; [|done].
      destruct (IsDir fi) eqn:Ed; [|done]. intros [= <-].
      split; [exact Hadd1|]. intros ->. rewrite app_nil_r in EL.
      exists fi. split; [|exact Ed]. by apply Stat_dir_of_Lstat.
Qed.

Lemma MkdirAll_spec σ p perm σ' :
  clean p → MkdirAll σ p perm = Ok σ' →
  dirs_added perm σ σ' ∧ ∃ fi, Stat σ' p = Ok fi ∧ IsDir fi = true.
Proof.
  intros Hclean HM. unfold MkdirAll in HM.
  apply MkdirAll_rev_spec in HM as [Hadd Hdir]; [|by rewrite rev_involutive].
  rewrite rev_involutive in Hdir. auto.
Qed.

(** ** Directory entries *)

(** What [symVisit] does at a directory entry below the package root. *)
Lemma symVisit_directory config pkgPath p info w :
  p ≠ pkgPath → IsDir info = true →
  let targetPath := JoinRel (TargetDir config) (Rel pkgPath p) in
  let out := symVisit config pkgPath p (Some info) None w in
  if IsNotExist (Stat (files w) targetPath) then
    if Simulate config then out.1 = None ∧ files out.2 = files w
    else
      match MkdirAll (files w) targetPath (Mode info) with
      | Ok σ' => out.1 = None ∧ files out.2 = σ'
      | Err e =>
          out.1 = Some (ErrCreateDirectory targetPath
                          (PathError "mkdir" targetPath e))
          ∧ files out.2 = files w
      end
  else out = (None, w).
Proof.
  intros Hne Hd. cbn zeta. unfold symVisit.
  rewrite decide_False, Hd by done. calls; by simplify_eq.
Qed.



Section directory_entry.
Context (config : Config) (pkgPath p : path) (info : FileInfo) (w : world).
Let targetPath := JoinRel (TargetDir config) (Rel pkgPath p).
Let out := symVisit config pkgPath p (Some info) None w.

End directory_entry.


(** ** Linking one entry *)

Lemma Readlink_inv σ p d :
  Readlink σ p = Ok d →
  ∃ q, resolve σ false p = Ok q ∧ node_at σ q = Some (Symlink d).
Proof.
  unfold Readlink. destruct (resolve σ false p) as [q|]; [|done].
  destruct (node_at σ q) as [[| |d']|] eqn:E; try done.
  intros [= ->]. eauto.
Qed.

(** [σ'] is [σ] with directories and symbolic links added. *)
Definition grown (σ σ' : fs) : Prop :=
  σ ⊆ σ'
  ∧ ∀ k nd, σ !! k = None → σ' !! k = Some nd → ∀ perm, nd ≠ File perm.

Lemma grown_refl σ : grown σ σ.
Proof. split; [done|]. intros k nd H1 H2. congruence. Qed.

Lemma grown_trans σ1 σ2 σ3 : grown σ1 σ2 → grown σ2 σ3 → grown σ1 σ3.
Proof.
  intros [S1 D1] [S2 D2]. split; [by etrans|].
  intros k nd H1 H3. destruct (σ2 !! k) as [nd2|] eqn:E2.
  - pose proof (lookup_weaken _ _ _ _ E2 S2). apply (D1 k); congruence.
  - by apply (D2 k).
Qed.

Lemma dirs_added_grown perm σ σ' : dirs_added perm σ σ' → grown σ σ'.
Proof.
  intros [S D]. split; [done|]. intros k nd H1 H2 perm'.
  by rewrite (D k nd H1 H2).
Qed.

Lemma grown_insert_link σ q d :
  σ !! q = None → grown σ (<[q := Symlink d]> σ).
Proof.
  intros Hq. split; [by apply insert_subseteq|].
  intros k nd Hk. destruct (decide (k = q)) as [->|].
  - rewrite lookup_insert_eq. by intros [= <-].
  - rewrite lookup_insert_ne by done. congruence.
Qed.

(** What [createSymlink] leaves behind. *)
Lemma createSymlink_post config srcPath targetPath w :
  clean targetPath →
  let out := createSymlink config srcPath targetPath w in
  grown (files w) (files out.2)
  ∧ (Simulate config = false → out.1 = None →
       ∃ q, resolve (files out.2) false targetPath = Ok q
            ∧ node_at (files out.2) q = Some (Symlink (to_string srcPath))).
Proof.
  intros Hclean. cbn zeta. unfold createSymlink. run.
  destruct (Lstat (files w) targetPath) as [fi|e] eqn:EL.
  - destruct (Readlink (files w) targetPath) as [link|] eqn:ER.
    + case_decide as Hl.
      * subst link. apply Readlink_inv in ER as (q & Hr & Hn).
        destruct (Verbose config); cbn [fst snd files];
          (split; [apply grown_refl|eauto]).
      * split; [apply grown_refl|done].
    + split; [apply grown_refl|done].
  - assert (Hmk : ∀ σ1, MkdirAll (files w) (Dir targetPath) 493 = Ok σ1 →
                        grown (files w) σ1).
    { intros σ1 HM. apply MkdirAll_spec in HM as [Hadd _];
        [by eapply dirs_added_grown|by apply clean_removelast]. }
    assert (Hln : ∀ σ1 σ2, grown (files w) σ1 →
              Symlink_ σ1 (to_string srcPath) targetPath = Ok σ2 →
              grown (files w) σ2
              ∧ ∃ q, resolve σ2 false targetPath = Ok q
                     ∧ node_at σ2 q = Some (Symlink (to_string srcPath))).
    { intros σ1 σ2 Hg HS.
      apply Symlink_Lstat in HS as (q & Hr & Hn & Hnone & ->); [|done].
      split; [|eauto]. eapply grown_trans; [done|]. by apply grown_insert_link. }
    calls; try (split; [apply grown_refl|done]).
    all: try (split; [by apply Hmk|done]).
    all: try match goal with
         | H : Symlink_ _ _ _ = Ok _ |- _ =>
             apply Hln in H as [? ?]; [by split|by auto using grown_refl]
         end.
Qed.

(** ** Mirroring the package *)



Section mirror.
Context (config : Config) (pkgPath rel : path) (info : FileInfo) (w : world).
Let p := pkgPath ++ rel.
Let targetPath := TargetDir config ++ rel.
Let out := symVisit config pkgPath p (Some info) None w.

End mirror.


(** ** Which paths a walk visits *)

Lemma children_valid σ q name :
  name ∈ children σ q → valid_name name ∧ is_Some (σ !! (q ++ [name])).
Proof.
  unfold children. rewrite merge_sort_Permutation.
  intros (k & Hk & Hc)%list_elem_of_omap.
  unfold child_name in Hc.
  destruct (strip_prefix q k) as [[|c [|??]]|] eqn:E; try done.
  case_decide; [|done]. injection Hc as ->. split; [done|].
  assert (k = q ++ [name]) as <-.
  { clear -E. revert k E. induction q as [|a q IH]; intros k; simpl.
    - by intros [= ->].
    - destruct k as [|b k]; [done|]. case_decide; [|done]. subst.
      intros E. by rewrite (IH _ E). }
  apply list_elem_of_fmap in Hk as ([k' nd] & -> & Hin).
  apply elem_of_map_to_list in Hin. by eexists.
Qed.

Section walk_paths.
Context (R : path → Prop) (fn gn : WalkFunc).
Hypothesis R_child : ∀ p name, R p → valid_name name → R (p ++ [name]).
Hypothesis agree : ∀ p, R p → fn p = gn p.

(** Two functions that agree on the paths a walk can reach give the same
    walk. *)
Lemma each_name_ext
    (c1 c2 : path → FileInfo → world → option (option error * world))
    p names :
  R p → (∀ name, name ∈ names → valid_name name) →
  (∀ name fi w, R (p ++ [name]) →
                c1 (p ++ [name]) fi w = c2 (p ++ [name]) fi w) →
  ∀ w, each_name c1 fn p names w = each_name c2 gn p names w.
Proof.
  intros HR Hall Hc. induction names as [|name names IHn]; intros w1;
    [reflexivity|].
  assert (HRn : R (p ++ [name])) by (apply R_child; [done|]; apply Hall; left).
  cbn [each_name].
  destruct (Lstat (files w1) (p ++ [name])) as [fi|e].
  - rewrite (Hc _ fi w1 HRn).
    destruct (c2 _ _ w1) as [[[?|] ?]|]; [reflexivity| |reflexivity].
    apply IHn. intros ??. apply Hall. by right.
  - rewrite (agree _ HRn).
    destruct (gn _ None _ w1) as [[?|] ?]; [reflexivity|].
    apply IHn. intros ??. apply Hall. by right.
Qed.

Lemma readDirNames_valid σ p names name :
  readDirNames σ p = Ok names → name ∈ names → valid_name name.
Proof.
  unfold readDirNames. destruct (resolve _ _ _) as [q|]; [|done].
  destruct (node_at _ q) as [[]|]; try done. intros [= <-] Hin.
  by apply children_valid in Hin as [? _].
Qed.

Lemma walk_ext fuel : ∀ p info w,
  R p → walk fuel p info fn w = walk fuel p info gn w.
Proof.
  induction fuel as [|fuel IH]; intros p info w HR; [reflexivity|].
  cbn [walk]. rewrite (agree p HR). destruct (IsDir info); [|reflexivity].
  cbn [negb]. cbn zeta.
  destruct (readDirNames (files w) p) as [names|e] eqn:En; [|reflexivity].
  destruct (gn p (Some info) None w) as [[e1|] w1]; [reflexivity|].
  apply each_name_ext; [exact HR| |].
  - intros name. exact (readDirNames_valid _ _ _ _ En).
  - intros name fi w' HRn. by apply IH.
Qed.

Lemma Walk_ext fuel root w :
  R root → Walk fuel root fn w = Walk fuel root gn w.
Proof.
  intros HR. unfold Walk. rewrite (agree _ HR).
  destruct (Lstat (files w) root); [by apply walk_ext|done].
Qed.
End walk_paths.

(** [p] is [root] followed by names a directory listing can return. *)
Definition belowb (root p : path) : bool :=
  match strip_prefix root p with
  | Some rel => bool_decide (Forall valid_name rel)
  | None => false
  end.

Lemma strip_prefix_app (q rel : path) : strip_prefix q (q ++ rel) = Some rel.
Proof. induction q as [|a q IH]; simpl; [done|]. by rewrite decide_True. Qed.

Lemma strip_prefix_Some (q k rel : path) :
  strip_prefix q k = Some rel → k = q ++ rel.
Proof.
  revert k. induction q as [|a q IH]; intros k; simpl.
  - by intros [= ->].
  - destruct k as [|b k]; [done|]. case_decide; [|done]. subst.
    intros E. by rewrite (IH _ E).
Qed.

Lemma belowb_spec root p :
  belowb root p = true ↔ ∃ rel, p = root ++ rel ∧ Forall valid_name rel.
Proof.
  unfold belowb. split.
  - destruct (strip_prefix root p) as [rel|] eqn:E; [|done].
    intros H%bool_decide_eq_true. exists rel. split; [|done].
    by apply strip_prefix_Some.
  - intros (rel & -> & Hrel). rewrite strip_prefix_app.
    by apply bool_decide_eq_true.
Qed.

(** [filepath.Walk] calls its function only at the root and at paths made
    of the root and names read from directories. *)
Lemma Walk_visits_below_root fuel root fn w :
  Walk fuel root fn w
  = Walk fuel root (λ p, if belowb root p then fn p else λ _ _, ret None) w.
Proof.
  apply (Walk_ext (λ p, belowb root p = true)).
  - intros p name (rel & -> & Hrel)%belowb_spec Hname. apply belowb_spec.
    exists (rel ++ [name]). rewrite app_assoc. split; [done|].
    apply Forall_app. by split; [|constructor].
  - by intros p ->.
  - apply belowb_spec. exists []. by rewrite app_nil_r.
Qed.

(** ** Walking a tree that has only grown *)

(** Adding entries changes the outcome of a lookup only if it was "no such
    file or directory". *)
Lemma namei_stable (n : nat) (σ σ' : fs) (f : bool) :
  σ ⊆ σ' → ∀ rest cur r,
  namei n σ f cur rest = r → r ≠ Err ENOENT → namei n σ' f cur rest = r.
Proof.
  intros Hsub. induction n as [|n IHn]; intros rest;
    induction rest as [|c rest IH]; intros cur r; rewrite ?namei_nil; try done.
  all: rewrite !namei_cons; repeat case_decide; auto.
  all: destruct (σ !! (cur ++ [c])) as [nd|] eqn:E; [|congruence].
  all: rewrite (lookup_weaken _ _ _ _ E Hsub).
  all: destruct nd; auto.
  case_decide; [congruence|]. destruct rest, f; auto.
Qed.

Lemma Stat_stable (σ σ' : fs) p r :
  σ ⊆ σ' → Stat σ p = r → r ≠ Err ENOENT → Stat σ' p = r.
Proof.
  intros Hsub. unfold Stat, resolve.
  destruct (namei _ σ _ _ _) as [q|e] eqn:E.
  - rewrite (namei_stable _ _ _ _ Hsub _ _ _ E) by done.
    unfold info_at. destruct (node_at σ q) as [nd|] eqn:En; [|congruence].
    by rewrite (node_at_mono _ _ _ _ Hsub En).
  - intros <- He. rewrite (namei_stable _ _ _ _ Hsub _ _ _ E); [done|].
    congruence.
Qed.

Lemma Lstat_mono (σ σ' : fs) p fi :
  σ ⊆ σ' → Lstat σ p = Ok fi → Lstat σ' p = Ok fi.
Proof.
  intros Hsub. unfold Lstat, resolve.
  destruct (namei _ σ _ _ _) as [q|e] eqn:E; [|done].
  rewrite (namei_mono _ _ _ _ Hsub _ _ _ E).
  unfold info_at. destruct (node_at σ q) as [nd|] eqn:En; [|done].
  by rewrite (node_at_mono _ _ _ _ Hsub En).
Qed.

Lemma children_complete σ q name :
  valid_name name → is_Some (σ !! (q ++ [name])) → name ∈ children σ q.
Proof.
  intros Hv [nd Hnd]. unfold children. rewrite merge_sort_Permutation.
  apply list_elem_of_omap. exists (q ++ [name]). split.
  - apply list_elem_of_fmap. exists (q ++ [name], nd). split; [done|].
    by apply elem_of_map_to_list.
  - unfold child_name. rewrite strip_prefix_app. by rewrite decide_True.
Qed.

(** [symVisit] only ever adds directories and links. *)
Lemma symVisit_grown config pkgPath p info err w :
  clean (TargetDir config) →
  grown (files w) (files (symVisit config pkgPath p info err w).2).
Proof.
  intros Hclean. unfold symVisit.
  destruct err; [apply grown_refl|]. destruct info as [info|]; [|apply grown_refl].
  case_decide; [apply grown_refl|].
  pose proof (clean_onto_clean (TargetDir config) (Rel pkgPath p) Hclean) as Hct.
  destruct (IsDir info).
  - run. destruct (IsNotExist _); [|apply grown_refl].
    assert (Hmk : ∀ σ1, MkdirAll (files w) (JoinRel (TargetDir config)
                          (Rel pkgPath p)) (Mode info) = Ok σ1 →
                        grown (files w) σ1).
    { intros σ1 HM. apply MkdirAll_spec in HM as [Hadd _]; [|done].
      by eapply dirs_added_grown. }
    calls; first [apply grown_refl | by apply Hmk].
  - run. pose proof (createSymlink_post config p _ w Hct) as [Hg _].
    by destruct (createSymlink _ _ _ _) as [[?|] ?].
Qed.

Lemma symWalk_grown config pkgPath fuel p info w r :
  clean (TargetDir config) →
  walk fuel p info (symVisit config pkgPath) w = Some r →
  grown (files w) (files r.2).
Proof.
  intros Hclean HW.
  eapply (walk_invariant (λ w', grown (files w) (files w')) (λ _, True)) in HW;
    [by apply HW| |done|apply grown_refl].
  intros p' info' err w1 Hw1 _. split; [|done].
  eapply grown_trans; [done|]. by apply symVisit_grown.
Qed.

Lemma createSymlink_already config srcPath targetPath w q :
  resolve (files w) false targetPath = Ok q →
  node_at (files w) q = Some (Symlink (to_string srcPath)) →
  ∃ w', createSymlink config srcPath targetPath w = (None, w')
        ∧ files w' = files w.
Proof.
  intros Hr Hn. unfold createSymlink. run.
  rewrite (Lstat_node _ _ _ _ Hr Hn), (Readlink_symlink _ _ _ _ Hr Hn).
  rewrite decide_True by done. destruct (Verbose config); eauto.
Qed.

Lemma symVisit_file config pkgPath p info w :
  p ≠ pkgPath → IsDir info = false →
  symVisit config pkgPath p (Some info) None w
  = createSymlink config p (JoinRel (TargetDir config) (Rel pkgPath p)) w.
Proof.
  intros Hne Hd. unfold symVisit. rewrite decide_False, Hd by done.
  run. by destruct (createSymlink _ _ _ _) as [[?|] ?].
Qed.

(** An entry the link walk has dealt with needs nothing more, however the
    tree has grown since. *)
Lemma symVisit_again config pkgPath p info w w' :
  clean (TargetDir config) → Simulate config = false →
  (symVisit config pkgPath p (Some info) None w).1 = None →
  files (symVisit config pkgPath p (Some info) None w).2 ⊆ files w' →
  ∃ w'', symVisit config pkgPath p (Some info) None w' = (None, w'')
         ∧ files w'' = files w'.
Proof.
  intros Hclean Hsim Hok Hsub.
  destruct (decide (p = pkgPath)) as [->|Hne].
  { unfold symVisit. rewrite decide_True by done. by eexists. }
  pose proof (clean_onto_clean (TargetDir config) (Rel pkgPath p) Hclean) as Hct.
  destruct (IsDir info) eqn:Hd.
  - pose proof (symVisit_directory config pkgPath p info w Hne Hd) as H.
    pose proof (symVisit_directory config pkgPath p info w' Hne Hd) as H'.
    cbn zeta in H, H'. rewrite Hsim in H.
    set (targetPath := JoinRel (TargetDir config) (Rel pkgPath p)) in *.
    assert (Hexists : IsNotExist (Stat (files w') targetPath) = false).
    { destruct (IsNotExist (Stat (files w) targetPath)) eqn:EN.
      - destruct (MkdirAll (files w) targetPath (Mode info)) as [σ1|e] eqn:EM;
          destruct H as [H1 H2]; [|congruence].
        apply MkdirAll_spec in EM as [_ (fi & HS & _)]; [|done].
        rewrite H2 in Hsub.
        by rewrite (Stat_stable _ _ _ _ Hsub HS).
      - rewrite H in Hsub. cbn [snd] in Hsub.
        destruct (Stat (files w) targetPath) as [fi|e] eqn:ES.
        + by rewrite (Stat_stable _ _ _ _ Hsub ES).
        + rewrite (Stat_stable _ _ _ _ Hsub ES); [by destruct e|].
          intros [= ->]. done. }
    rewrite Hexists in H'. rewrite H'. by eexists.
  - rewrite symVisit_file in * by done.
    pose proof (createSymlink_post config p _ w Hct) as [_ Hl].
    destruct (Hl Hsim Hok) as (q & Hr & Hn).
    apply (createSymlink_already config p _ w' q).
    + by apply (namei_mono _ _ _ _ Hsub).
    + by apply (node_at_mono _ _ _ _ Hsub).
Qed.

(** What a successful loop over the names says about each name. *)
Lemma each_name_success walk_child (fn : WalkFunc) p names w0 w' :
  (∀ f e w, (fn f None (Some e) w).1 ≠ None) →
  (∀ f i w r, walk_child f i w = Some r → files w ⊆ files r.2) →
  each_name walk_child fn p names w0 = Some (None, w') →
  files w0 ⊆ files w'
  ∧ Forall (λ name, ∃ fi wi wi',
              files w0 ⊆ files wi
              ∧ Lstat (files wi) (p ++ [name]) = Ok fi
              ∧ walk_child (p ++ [name]) fi wi = Some (None, wi')
              ∧ files wi' ⊆ files w') names.
Proof.
  intros Hfn Hmono. revert w0.
  induction names as [|name names IH]; intros w0; cbn [each_name].
  { intros [= <-]. by split. }
  destruct (Lstat (files w0) (p ++ [name])) as [fi|e] eqn:EL.
  - destruct (walk_child (p ++ [name]) fi w0) as [[[e'|] wi']|] eqn:EC;
      try done.
    intros Hrest. pose proof (Hmono _ _ _ _ EC) as Hsub. cbn [snd] in Hsub.
    apply IH in Hrest as [Hsub' Hall]. split; [by etrans|].
    constructor.
    + exists fi, w0, wi'. by split_and!.
    + eapply Forall_impl; [exact Hall|]. cbn beta.
      intros name' (fi' & wi & wi2 & H1 & H2 & H3 & H4).
      exists fi', wi, wi2. split_and!; try done. by etrans.
  - pose proof (Hfn (p ++ [name]) (PathError "lstat" (p ++ [name]) e) w0) as H.
    destruct (fn _ None _ w0) as [[e'|] w1]; [done|]. by destruct H.
Qed.

(** A second loop over names that were all dealt with before. *)
Lemma each_name_again walk_child (fn : WalkFunc) p names σ :
  Forall (λ name, ∃ fi, Lstat σ (p ++ [name]) = Ok fi
            ∧ ∀ w, files w = σ →
                   ∃ w', walk_child (p ++ [name]) fi w = Some (None, w')
                         ∧ files w' = σ) names →
  ∀ w, files w = σ →
       ∃ w', each_name walk_child fn p names w = Some (None, w')
             ∧ files w' = σ.
Proof.
  induction 1 as [|name names (fi & HL & Hc) _ IH]; intros w Hw;
    cbn [each_name]; [by eexists|].
  rewrite Hw, HL. destruct (Hc w Hw) as (w' & -> & Hw'). by apply IH.
Qed.

(** Two trees hold the same entries strictly below [q]. *)
Definition same_below (q : path) (σ σ' : fs) : Prop :=
  ∀ rel, rel ≠ [] → σ !! (q ++ rel) = σ' !! (q ++ rel).

Lemma same_below_sandwich (q : path) (σ σi σ' : fs) :
  σ ⊆ σi → σi ⊆ σ' → same_below q σ σ' → same_below q σi σ'.
Proof.
  intros H1 H2 Hs rel Hrel. specialize (Hs rel Hrel).
  destruct (σ !! (q ++ rel)) as [nd|] eqn:E.
  - rewrite (lookup_weaken _ _ _ _ E H1). done.
  - destruct (σi !! (q ++ rel)) as [nd|] eqn:Ei; [|done].
    rewrite (lookup_weaken _ _ _ _ Ei H2) in Hs. done.
Qed.

Lemma same_below_child (q : path) (name : string) (σ σ' : fs) :
  same_below q σ σ' → same_below (q ++ [name]) σ σ'.
Proof.
  intros Hs rel Hrel. rewrite <-app_assoc. apply Hs. done.
Qed.

Lemma readDirNames_Ok σ p names :
  readDirNames σ p = Ok names →
  ∃ q perm, resolve σ true p = Ok q ∧ node_at σ q = Some (Directory perm)
            ∧ names = children σ q.
Proof.
  unfold readDirNames. destruct (resolve σ true p) as [q|]; [|done].
  destruct (node_at σ q) as [[| perm |]|] eqn:E; try done.
  intros [= <-]. eauto.
Qed.

Lemma resolve_mono (σ σ' : fs) (f : bool) (p q : path) :
  σ ⊆ σ' → resolve σ f p = Ok q → resolve σ' f p = Ok q.
Proof. intros Hsub. unfold resolve. apply namei_mono, Hsub. Qed.

Lemma readDirNames_mono (σ σ' : fs) (p q : path) (perm : Z) :
  σ ⊆ σ' → resolve σ true p = Ok q → node_at σ q = Some (Directory perm) →
  readDirNames σ' p = Ok (children σ' q).
Proof.
  intros Hsub Hr Hn. unfold readDirNames.
  rewrite (resolve_mono _ _ _ _ _ Hsub Hr).
  by rewrite (node_at_mono _ _ _ _ Hsub Hn).
Qed.

(** The physical place of a directory found by [Lstat] in the directory
    at [q]. *)
Lemma resolve_child_directory σ p q name fi :
  valid_name name → resolve σ true p = Ok q →
  Lstat σ (p ++ [name]) = Ok fi → IsDir fi = true →
  resolve σ true (p ++ [name]) = Ok (q ++ [name]).
Proof.
  intros Hv Hr HL Hd.
  destruct (Lstat_dir_node _ _ _ HL Hd) as (q' & perm & Hr' & Hn').
  assert (q' = q ++ [name]) as ->.
  { rewrite (resolve_nofollow _ _ name) in Hr';
      [|by rewrite last_snoc|by apply valid_name_normal].
    unfold resolve_parent in Hr'.
    rewrite last_snoc, removelast_last, Hr in Hr'.
    destruct (node_at σ q) as [[]|]; try done.
    destruct (σ !! (q ++ [name])); by simplify_eq. }
  unfold resolve. apply namei_follow; [|done].
  intros d. by rewrite Hn'.
Qed.

Lemma symVisit_passes_error config pkgPath f info e w :
  symVisit config pkgPath f info (Some e) w = (Some e, w).
Proof. reflexivity. Qed.

Lemma grown_sub σ σ' : grown σ σ' → σ ⊆ σ'.
Proof. by intros [? _]. Qed.

Lemma walk_0 p info (fn : WalkFunc) w : walk 0 p info fn w = None.
Proof. reflexivity. Qed.

Lemma walk_S fuel p info (fn : WalkFunc) w :
  walk (S fuel) p info fn w =
    if negb (IsDir info) then Some (fn p (Some info) None w)
    else
      match readDirNames (files w) p with
      | Ok names =>
          match fn p (Some info) None w with
          | (None, w1) =>
              each_name (λ f i w, walk fuel f i fn w) fn p names w1
          | (Some e, w1) => Some (Some e, w1)
          end
      | Err e =>
          Some (fn p (Some info) (Some (PathError "open" p e)) w)
      end.
Proof.
  cbn [walk]. destruct (IsDir info); [|reflexivity]. cbn [negb].
  destruct (readDirNames (files w) p).
  - by destruct (fn p (Some info) None w) as [[?|] ?].
  - by destruct (fn p (Some info) _ w).
Qed.

Section walk_cases.
Context (fn : WalkFunc).
Hypothesis fn_passes_error : ∀ f info e w, fn f info (Some e) w = (Some e, w).

Lemma walk_success fuel p info w wa :
  walk (S fuel) p info fn w = Some (None, wa) →
  (IsDir info = false ∧ fn p (Some info) None w = (None, wa))
  ∨ (IsDir info = true
     ∧ ∃ names w0, readDirNames (files w) p = Ok names
                   ∧ fn p (Some info) None w = (None, w0)
                   ∧ each_name (λ f i w, walk fuel f i fn w) fn p names w0
                     = Some (None, wa)).
Proof.
  rewrite walk_S. destruct (IsDir info); cbn [negb].
  - destruct (readDirNames (files w) p) as [names|e].
    + destruct (fn p (Some info) None w) as [[e1|] w0] eqn:Ev; [done|].
      intros HW. right. split; [done|]. by exists names, w0.
    + by rewrite fn_passes_error.
  - intros [= HW]. by left.
Qed.

Lemma walk_file fuel p info w :
  IsDir info = false →
  walk (S fuel) p info fn w = Some (fn p (Some info) None w).
Proof. intros Hd. by rewrite walk_S, Hd. Qed.

Lemma walk_directory fuel p info w names w0 :
  IsDir info = true → readDirNames (files w) p = Ok names →
  fn p (Some info) None w = (None, w0) →
  walk (S fuel) p info fn w
  = each_name (λ f i w, walk fuel f i fn w) fn p names w0.
Proof. intros Hd En Ev. by rewrite walk_S, Hd, En, Ev. Qed.
End walk_cases.

Section link_again.
Context (config : Config) (pkgPath : path).
Hypothesis Hclean : clean (TargetDir config).
Hypothesis Hsim : Simulate config = false.
Local Abbreviation fn := (symVisit config pkgPath).

(** Walking a tree again that the link walk has been through, and whose
    package part it has not changed, does nothing. *)
Lemma symWalk_again fuel : ∀ p info w wa (σ' : fs),
  walk fuel p info fn w = Some (None, wa) →
  files wa ⊆ σ' →
  (IsDir info = true →
     ∀ q, resolve (files w) true p = Ok q → same_below q (files w) σ') →
  ∀ w', files w' = σ' →
        ∃ w'', walk fuel p info fn w' = Some (None, w'') ∧ files w'' = σ'.
Proof.
  induction fuel as [|fuel IH]; intros p info w wa σ' HW Hsub Hagree w' Hw'.
  { by rewrite walk_0 in HW. }
  apply (walk_success fn (symVisit_passes_error config pkgPath)) in HW
    as [[Hd HW]|(Hd & names & w0 & En & Ev & HW)].
  { destruct (symVisit_again config pkgPath p info w w' Hclean Hsim)
      as (w'' & Hv & Hf).
    - by rewrite HW.
    - rewrite HW, Hw'. exact Hsub.
    - exists w''. rewrite (walk_file _ _ _ _ _ Hd), Hv.
      split; congruence. }
  apply readDirNames_Ok in En as (q & perm & Hr & Hn & ->).
  pose proof (symVisit_grown config pkgPath p (Some info) None w Hclean) as Hg0.
  rewrite Ev in Hg0. cbn [snd] in Hg0.
  apply grown_sub in Hg0.
  apply each_name_success in HW as [Hsub0 Hall].
  2: { intros f e w1. by rewrite symVisit_passes_error. }
  2: { intros f i w1 r Hr1.
       exact (grown_sub _ _ (symWalk_grown config pkgPath _ _ _ _ _ Hclean Hr1)). }
  assert (Hw_sub : files w ⊆ σ') by (etrans; [exact Hg0|]; by etrans).
  destruct (symVisit_again config pkgPath p info w w' Hclean Hsim)
    as (w0' & Hv & Hf).
  { by rewrite Ev. }
  { rewrite Ev, Hw'. cbn [snd]. by etrans. }
  rewrite (walk_directory fn _ _ _ _ (children σ' q) w0' Hd);
    [|rewrite Hw'; exact (readDirNames_mono _ _ _ _ _ Hw_sub Hr Hn)|exact Hv].
  apply each_name_again; [|congruence].
  apply Forall_forall. intros name Hin.
  apply children_valid in Hin as [Hvalid Hsome].
  rewrite <-(Hagree Hd q Hr [name]) in Hsome by done.
  pose proof (children_complete _ _ _ Hvalid Hsome) as Hin1.
  rewrite Forall_forall in Hall.
  destruct (Hall name Hin1) as (fi & wi & wi' & Hs1 & HL & HWi & Hs2).
  assert (Hgi : files wi ⊆ files wi').
  { exact (grown_sub _ _ (symWalk_grown config pkgPath _ _ _ _ _ Hclean HWi)). }
  assert (Hwi_sub : files wi ⊆ σ') by (etrans; [exact Hgi|]; by etrans).
  exists fi. split; [by apply (Lstat_mono _ _ _ _ Hwi_sub)|].
  apply (IH _ _ wi wi'); [exact HWi|by etrans|].
  intros Hdi qc Hqc.
  assert (Hw_wi : files w ⊆ files wi) by (etrans; [exact Hg0|exact Hs1]).
  pose proof (resolve_mono _ _ _ _ _ Hw_wi Hr) as Hri.
  pose proof (resolve_child_directory _ _ _ _ _ Hvalid Hri HL Hdi) as Hc.
  assert (qc = q ++ [name]) as -> by congruence.
  apply same_below_child.
  exact (same_below_sandwich q (files w) (files wi) σ' Hw_wi Hwi_sub
           (Hagree Hd q Hr)).
Qed.
End link_again.

(** * Further properties *)

(** ** The loop over the packages *)

Lemma processPackages_app fuel config pkgs1 pkgs2 w :
  processPackages fuel config (pkgs1 ++ pkgs2) w =
    match processPackages fuel config pkgs1 w with
    | Some (None, w1) => processPackages fuel config pkgs2 w1
    | r => r
    end.
Proof.
  revert w. induction pkgs1 as [|pkg pkgs1 IH]; intros w; [reflexivity|].
  cbn [app processPackages].
  destruct (ProcessPackage fuel config pkg w) as [[[e|] w']|];
    [reflexivity|apply IH|reflexivity].
Qed.

(** The packages are processed in the order given, and the first one that
    fails ends the run: its error comes back wrapped with its name, in the
    state that package left, whatever packages follow. *)
Theorem processPackages_stops_at_first_error fuel config before pkg after
    w w1 err w2
    (Hbefore : processPackages fuel config before w = Some (None, w1))
    (Hfails : ProcessPackage fuel config pkg w1 = Some (Some err, w2)) :
  processPackages fuel config (before ++ pkg :: after) w
  = Some (Some (ErrProcessingPackage pkg err), w2).
Proof.
  rewrite processPackages_app, Hbefore. cbn [processPackages].
  by rewrite Hfails.
Qed.

Lemma processPackages_stops_at_first_error_witness :
  ∃ w1 w2,
    processPackages 8 Examples.config0 ["vim"] Examples.fresh = Some (None, w1)
    ∧ processPackages 8 Examples.config0 ["vim"; "emacs"; "vim"] Examples.fresh
      = Some (Some (ErrProcessingPackage "emacs"
                      (ErrPackageMissing ["src"; "emacs"])), w2).
Proof.
  eexists _, _. split; [vm_compute; reflexivity|].
  eapply (processPackages_stops_at_first_error 8 Examples.config0 ["vim"]
            "emacs" ["vim"] Examples.fresh).
  - vm_compute. reflexivity.
  - vm_compute. reflexivity.
Defined.

(** A run that reports an error reports it for one of the packages given,
    and every package before that one was processed without error. *)
Theorem processPackages_error_names_package fuel config pkgs w pkg err w'
    (Hrun : processPackages fuel config pkgs w
            = Some (Some (ErrProcessingPackage pkg err), w')) :
  ∃ before after w1,
    pkgs = before ++ pkg :: after
    ∧ processPackages fuel config before w = Some (None, w1)
    ∧ ProcessPackage fuel config pkg w1 = Some (Some err, w').
Proof.
  revert w Hrun. induction pkgs as [|p pkgs IH]; intros w; [done|].
  cbn [processPackages].
  destruct (ProcessPackage fuel config p w) as [[[e|] w1]|] eqn:E; [| |done].
  - intros [= -> -> ->]. by exists [], pkgs, w.
  - intros (before & after & w2 & -> & Hb & Hp)%IH.
    exists (p :: before), after, w2. split_and!; [done| |done].
    cbn [processPackages]. by rewrite E.
Qed.

Lemma processPackages_error_names_package_witness :
  ∃ before after w1,
    ["vim"; "emacs"; "vim"] = before ++ "emacs" :: after
    ∧ processPackages 8 Examples.config0 before Examples.fresh = Some (None, w1)
    ∧ ∃ w', ProcessPackage 8 Examples.config0 "emacs" w1
            = Some (Some (ErrPackageMissing ["src"; "emacs"]), w').
Proof.
  assert (Hrun : ∃ w', processPackages 8 Examples.config0
                         ["vim"; "emacs"; "vim"] Examples.fresh
                       = Some (Some (ErrProcessingPackage "emacs"
                                       (ErrPackageMissing ["src"; "emacs"])), w'))
    by (eexists; vm_compute; reflexivity).
  destruct Hrun as [w' Hrun].
  destruct (processPackages_error_names_package _ _ _ _ _ _ _ Hrun)
    as (before & after & w1 & H1 & H2 & H3).
  exists before, after, w1. split_and!; [exact H1|exact H2|].
  exists w'. exact H3.
Defined.

(** With the simulate flag set, a whole run over any list of packages
    leaves the file system as it was. *)
Theorem processPackages_simulate fuel config pkgs w r
    (Hsim : Simulate config = true)
    (Hrun : processPackages fuel config pkgs w = Some r) :
  files r.2 = files w.
Proof.
  revert w Hrun. induction pkgs as [|p pkgs IH]; intros w.
  { by intros [= <-]. }
  cbn [processPackages].
  destruct (ProcessPackage fuel config p w) as [[[e|] w1]|] eqn:E; [| |done].
  - intros [= <-]. by apply (ProcessPackage_simulate _ _ _ _ _ Hsim E).
  - intros Hrest. rewrite (IH _ Hrest).
    by apply (ProcessPackage_simulate _ _ _ _ _ Hsim E).
Qed.

Lemma processPackages_simulate_witness :
  ∃ r, processPackages 8 (Examples.with_simulate Examples.config0)
         ["vim"; "emacs"] Examples.fresh = Some r
       ∧ files r.2 = files Examples.fresh.
Proof.
  eexists. split; [vm_compute; reflexivity|].
  apply (processPackages_simulate 8 (Examples.with_simulate Examples.config0)
           ["vim"; "emacs"] Examples.fresh); [reflexivity|].
  vm_compute. reflexivity.
Defined.

(** ** What the link walk never does *)

Lemma symPackage_grown fuel config pkg pkgPath w r :
  clean (TargetDir config) →
  symPackage fuel config pkg pkgPath w = Some r → grown (files w) (files r.2).
Proof.
  intros Hclean. unfold symPackage.
  destruct (when _ _ w) as [u w0] eqn:Ew.
  assert (files w0 = files w) as <-.
  { replace w0 with (when (Verbose config) (Printf ("Stowing package: " +:+ pkg)) w).2
      by (by rewrite Ew). by apply when_files. }
  intros HW.
  eapply (Walk_invariant (λ w', grown (files w0) (files w')) (λ _, True)) in HW;
    [by apply HW| |done|apply grown_refl].
  intros p info err w1 Hw1 _. split; [|done].
  eapply grown_trans; [exact Hw1|]. by apply symVisit_grown.
Qed.

(** In the default mode, processing a package never removes or alters an
    entry of the file system, and what it adds is a directory or a
    symbolic link, never a plain file. *)
Theorem link_mode_only_adds fuel config pkg w r
    (Hclean : clean (TargetDir config))
    (Hlink : ReSym config = false) (Hnodelete : Delete config = false)
    (Hrun : ProcessPackage fuel config pkg w = Some r) :
  (∀ k nd, files w !! k = Some nd → files r.2 !! k = Some nd)
  ∧ (∀ k nd, files w !! k = None → files r.2 !! k = Some nd →
       (∃ perm, nd = Directory perm) ∨ (∃ dest, nd = Symlink dest)).
Proof.
  assert (Hg : grown (files w) (files r.2)).
  { revert Hrun. unfold ProcessPackage. rewrite Hlink, Hnodelete.
    destruct (IsNotExist (Stat (files w) (Join (SymDir config) pkg))).
    - intros Hrun.
      assert (r = (Some (ErrPackageMissing (Join (SymDir config) pkg)), w))
        as -> by congruence.
      apply grown_refl.
    - intros Hrun. exact (symPackage_grown _ _ _ _ _ _ Hclean Hrun). }
  destruct Hg as [Hsub Hnew]. split.
  - intros k nd Hk. exact (lookup_weaken _ _ _ _ Hk Hsub).
  - intros k nd Hk Hk'. pose proof (Hnew k nd Hk Hk') as Hnf.
    destruct nd as [perm|perm|dest]; [by destruct (Hnf perm)|eauto..].
Qed.

Lemma link_mode_only_adds_witness :
  ∃ r, ProcessPackage 8 Examples.config0 "vim" Examples.foreign_link = Some r
       ∧ files r.2 !! ["home"; "u"; ".vimrc"] = Some (Symlink "/other/.vimrc").
Proof.
  assert (Hclean : clean (TargetDir Examples.config0)).
  { repeat constructor; vm_compute; intros; intuition discriminate. }
  eexists. split; [vm_compute; reflexivity|].
  eapply (link_mode_only_adds 8 Examples.config0 "vim" Examples.foreign_link);
    [exact Hclean|reflexivity|reflexivity|vm_compute; reflexivity|].
  vm_compute. reflexivity.
Defined.

(** ** Which errors a mode can give *)

(** Delete mode never reports a Conflict: its errors are the NotFound
    error of a missing package, a failed removal, or an error of the
    file-system probes. *)
Theorem delete_mode_errors fuel config pkg w e w'
    (Hnoresym : ReSym config = false) (Hdelete : Delete config = true)
    (Hrun : ProcessPackage fuel config pkg w = Some (Some e, w')) :
  is_conflict e = false
  ∧ (is_not_found e = true ∨ unlink_phase_error e = true).
Proof.
  revert Hrun. unfold ProcessPackage. rewrite Hnoresym, Hdelete.
  destruct (IsNotExist (Stat (files w) (Join (SymDir config) pkg))).
  - intros Hrun.
    assert (e = ErrPackageMissing (Join (SymDir config) pkg)) as ->
      by congruence.
    split; [reflexivity|by left].
  - intros Hrun. apply unsymPackage_error in Hrun.
    split; [by destruct e|by right].
Qed.

Lemma delete_mode_errors_witness :
  is_conflict (ErrPackageMissing (Join (SymDir Examples.config0) "emacs")) = false
  ∧ (is_not_found (ErrPackageMissing (Join (SymDir Examples.config0) "emacs"))
     = true
     ∨ unlink_phase_error
         (ErrPackageMissing (Join (SymDir Examples.config0) "emacs")) = true).
Proof.
  apply (delete_mode_errors 8 (Examples.with_delete Examples.config0) "emacs"
           Examples.fresh _ Examples.fresh); [reflexivity|reflexivity|].
  vm_compute. reflexivity.
Defined.

(** Whatever the mode, an error of [ProcessPackage] is the NotFound error,
    an error of the unlink phase wrapped as "failed to unsym during resym"
    (relink mode only), an error of the unlink phase (delete mode only), or
    an error of the link phase; and a Conflict can only come from the link
    phase. *)
Theorem ProcessPackage_error_kinds fuel config pkg w e w'
    (Hrun : ProcessPackage fuel config pkg w = Some (Some e, w')) :
  (e = ErrPackageMissing (Join (SymDir config) pkg) ∧ w' = w)
  ∨ (ReSym config = true
     ∧ ∃ cause, e = ErrUnsymDuringResym cause ∧ unlink_phase_error cause = true)
  ∨ (ReSym config = false ∧ Delete config = true ∧ unlink_phase_error e = true)
  ∨ ((ReSym config = true ∨ Delete config = false)
     ∧ link_phase_error e = true).
Proof.
  revert Hrun. unfold ProcessPackage.
  destruct (IsNotExist (Stat (files w) (Join (SymDir config) pkg))).
  { intros Hrun. left. split; congruence. }
  intros Hrun. right. destruct (ReSym config) eqn:HR.
  - destruct (unsymPackage fuel config pkg (Join (SymDir config) pkg) w)
      as [[[err|] w1]|] eqn:E; [| |discriminate Hrun].
    + left. split; [reflexivity|].
      exists err. split; [congruence|].
      exact (unsymPackage_error _ _ _ _ _ _ _ E).
    + right. right. split; [by left|].
      exact (symPackage_error _ _ _ _ _ _ _ Hrun).
  - right. destruct (Delete config) eqn:HD.
    + left. split_and!; [reflexivity..|].
      exact (unsymPackage_error _ _ _ _ _ _ _ Hrun).
    + right. split; [by right|].
      exact (symPackage_error _ _ _ _ _ _ _ Hrun).
Qed.

Lemma ProcessPackage_error_kinds_witness :
  ∃ e w', ProcessPackage 8 Examples.config0 "vim" Examples.plain_file
          = Some (Some e, w')
          ∧ link_phase_error e = true.
Proof.
  eexists _, _. split; [vm_compute; reflexivity|].
  destruct (ProcessPackage_error_kinds 8 Examples.config0 "vim"
              Examples.plain_file
              (ErrNotASymlink ["home"; "u"; ".vimrc"]) Examples.plain_file)
    as [[H _]|[(H & _)|[(_ & H & _)|[_ H]]]];
    [vm_compute; reflexivity|discriminate H|discriminate H|discriminate H|].
  exact H.
Defined.

(** ** What is printed *)

Lemma createSymlink_stdout config srcPath targetPath w :
  ∃ lines,
    stdout (createSymlink config srcPath targetPath w).2 = stdout w ++ lines
    ∧ (Verbose config = false → lines = []).
Proof.
  unfold createSymlink. calls; cbn [snd stdout];
    first [ by exists []; rewrite app_nil_r
          | rewrite <-?app_assoc; by eexists ].
Qed.

Lemma removeSymlink_stdout config srcPath targetPath w :
  ∃ lines,
    stdout (removeSymlink config srcPath targetPath w).2 = stdout w ++ lines
    ∧ (Verbose config = false → lines = []).
Proof.
  unfold removeSymlink. calls; cbn [snd stdout];
    first [ by exists []; rewrite app_nil_r
          | rewrite <-?app_assoc; by eexists ].
Qed.

(** [w'] has printed what [w] had, and then possibly more; nothing more
    when [quiet] holds. *)
Definition printed_on (quiet : Prop) (w w' : world) : Prop :=
  ∃ lines, stdout w' = stdout w ++ lines ∧ (quiet → lines = []).

Lemma printed_on_refl quiet w : printed_on quiet w w.
Proof. exists []. by rewrite app_nil_r. Qed.

Lemma printed_on_trans quiet w1 w2 w3 :
  printed_on quiet w1 w2 → printed_on quiet w2 w3 → printed_on quiet w1 w3.
Proof.
  intros (l1 & E1 & Q1) (l2 & E2 & Q2). exists (l1 ++ l2). split.
  - by rewrite E2, E1, app_assoc.
  - intros Hq. by rewrite (Q1 Hq), (Q2 Hq).
Qed.

Lemma symVisit_printed config pkgPath p info err w :
  printed_on (Verbose config = false) w (symVisit config pkgPath p info err w).2.
Proof.
  unfold symVisit. destruct err; [apply printed_on_refl|].
  destruct info as [info|]; [|apply printed_on_refl].
  case_decide; [apply printed_on_refl|]. destruct (IsDir info).
  - unfold printed_on. calls; cbn [snd stdout];
      first [ by exists []; rewrite app_nil_r | by eexists ].
  - run. pose proof (createSymlink_stdout config p
                       (JoinRel (TargetDir config) (Rel pkgPath p)) w) as Hc.
    by destruct (createSymlink _ _ _ _) as [[?|] ?].
Qed.

Lemma unsymVisit_printed config pkgPath p info err w :
  printed_on (Verbose config = false) w
    (unsymVisit config pkgPath p info err w).2.
Proof.
  unfold unsymVisit. destruct err; [apply printed_on_refl|].
  destruct info as [info|]; [|apply printed_on_refl].
  case_decide; [apply printed_on_refl|].
  destruct (IsDir info); cbn [negb]; [apply printed_on_refl|].
  run. pose proof (removeSymlink_stdout config p
                     (JoinRel (TargetDir config) (Rel pkgPath p)) w) as Hc.
  by destruct (removeSymlink _ _ _ _) as [[?|] ?].
Qed.

Lemma when_printed config line w :
  printed_on (Verbose config = false) w
    (when (Verbose config) (Printf line) w).2.
Proof.
  destruct (Verbose config) eqn:E; cbn; [|apply printed_on_refl].
  exists [line]. by split.
Qed.

Lemma symPackage_printed fuel config pkg pkgPath w r :
  symPackage fuel config pkg pkgPath w = Some r →
  printed_on (Verbose config = false) w r.2.
Proof.
  unfold symPackage.
  pose proof (when_printed config ("Stowing package: " +:+ pkg) w) as H0.
  destruct (when _ _ w) as [u w0]. cbn [snd] in H0. intros HW.
  eapply (Walk_invariant
            (λ w', printed_on (Verbose config = false) w w') (λ _, True)) in HW;
    [by apply HW| |done|exact H0].
  intros p info err w1 Hw1 _. split; [|done].
  eapply printed_on_trans; [exact Hw1|]. apply symVisit_printed.
Qed.

Lemma unsymPackage_printed fuel config pkg pkgPath w r :
  unsymPackage fuel config pkg pkgPath w = Some r →
  printed_on (Verbose config = false) w r.2.
Proof.
  unfold unsymPackage.
  pose proof (when_printed config ("Unstowing package: " +:+ pkg) w) as H0.
  destruct (when _ _ w) as [u w0]. cbn [snd] in H0. intros HW.
  eapply (Walk_invariant
            (λ w', printed_on (Verbose config = false) w w') (λ _, True)) in HW;
    [by apply HW| |done|exact H0].
  intros p info err w1 Hw1 _. split; [|done].
  eapply printed_on_trans; [exact Hw1|]. apply unsymVisit_printed.
Qed.

(** Processing a package only ever appends to what was printed, and
    without the verbose flag it prints nothing at all. *)
Theorem ProcessPackage_output fuel config pkg w r
    (Hrun : ProcessPackage fuel config pkg w = Some r) :
  ∃ lines, stdout r.2 = stdout w ++ lines
           ∧ (Verbose config = false → lines = []).
Proof.
  revert Hrun. unfold ProcessPackage.
  destruct (IsNotExist (Stat (files w) (Join (SymDir config) pkg))).
  { intros Hrun.
    assert (r = (Some (ErrPackageMissing (Join (SymDir config) pkg)), w))
      as -> by congruence.
    apply printed_on_refl. }
  destruct (ReSym config).
  - destruct (unsymPackage fuel config pkg (Join (SymDir config) pkg) w)
      as [[[err|] w1]|] eqn:E; [| |discriminate].
    + intros Hrun.
      assert (r = (Some (ErrUnsymDuringResym err), w1)) as -> by congruence.
      exact (unsymPackage_printed _ _ _ _ _ _ E).
    + intros Hrun. eapply printed_on_trans.
      * exact (unsymPackage_printed _ _ _ _ _ _ E).
      * exact (symPackage_printed _ _ _ _ _ _ Hrun).
  - destruct (Delete config); intros Hrun.
    + exact (unsymPackage_printed _ _ _ _ _ _ Hrun).
    + exact (symPackage_printed _ _ _ _ _ _ Hrun).
Qed.

Lemma ProcessPackage_output_witness :
  ∃ r lines,
    ProcessPackage 8 (Examples.with_verbose Examples.config0) "vim"
      Examples.fresh = Some r
    ∧ stdout r.2 = stdout Examples.fresh ++ lines.
Proof.
  assert (Hrun : ∃ r, ProcessPackage 8 (Examples.with_verbose Examples.config0)
                        "vim" Examples.fresh = Some r)
    by (eexists; vm_compute; reflexivity).
  destruct Hrun as [r Hrun].
  destruct (ProcessPackage_output _ _ _ _ _ Hrun) as (lines & Hl & _).
  exists r, lines. split; [exact Hrun|exact Hl].
Defined.

(** ** Linking twice *)

Lemma Walk_Lstat_root fuel root (fn : WalkFunc) w wa :
  (∀ f info e w, fn f info (Some e) w = (Some e, w)) →
  Walk fuel root fn w = Some (None, wa) →
  ∃ info, Lstat (files w) root = Ok info
          ∧ walk fuel root info fn w = Some (None, wa).
Proof.
  intros Hpass. unfold Walk.
  destruct (Lstat (files w) root) as [info|e]; [by eauto|].
  rewrite Hpass. discriminate.
Qed.

Lemma symPackage_again fuel config pkg pkgPath w w1 :
  clean (TargetDir config) → Simulate config = false →
  symPackage fuel config pkg pkgPath w = Some (None, w1) →
  (∀ q, resolve (files w) true pkgPath = Ok q →
        same_below q (files w) (files w1)) →
  ∃ w2, symPackage fuel config pkg pkgPath w1 = Some (None, w2)
        ∧ files w2 = files w1.
Proof.
  intros Hclean Hsim Hfirst Hsrc.
  pose proof (symPackage_grown _ _ _ _ _ _ Hclean Hfirst) as Hg.
  apply grown_sub in Hg. cbn [snd] in Hg.
  revert Hfirst. unfold symPackage.
  pose proof (when_files (Verbose config) (Printf ("Stowing package: " +:+ pkg))
                w (λ _, eq_refl)) as Hw0.
  pose proof (when_files (Verbose config) (Printf ("Stowing package: " +:+ pkg))
                w1 (λ _, eq_refl)) as Hw1.
  destruct (when (Verbose config) (Printf ("Stowing package: " +:+ pkg)) w)
    as [u w0].
  destruct (when (Verbose config) (Printf ("Stowing package: " +:+ pkg)) w1)
    as [u1 w1'].
  cbn [snd] in Hw0, Hw1. intros HW.
  apply (Walk_Lstat_root _ _ _ _ _ (symVisit_passes_error config pkgPath)) in HW
    as (info & HL & HW).
  unfold Walk. rewrite Hw1.
  assert (Hsub : files w0 ⊆ files w1) by (by rewrite Hw0).
  rewrite (Lstat_mono _ _ _ _ Hsub HL).
  apply (symWalk_again config pkgPath Hclean Hsim fuel _ _ w0 w1 (files w1));
    [exact HW|reflexivity| |exact Hw1].
  intros _ q Hq. rewrite Hw0 in Hq |- *. exact (Hsrc q Hq).
Qed.

(** ** What a walk depends on *)

(** Two outcomes with the same error and the same file system. *)
Definition alike (a b : option error * world) : Prop :=
  a.1 = b.1 ∧ files a.2 = files b.2.

Definition alike_runs (a b : option (option error * world)) : Prop :=
  match a, b with
  | Some a, Some b => alike a b
  | None, None => True
  | _, _ => False
  end.

Section walk_alike.
Context (fn gn : WalkFunc).
Hypothesis fn_gn_alike : ∀ p info err w w',
  files w = files w' → alike (fn p info err w) (gn p info err w').

Lemma each_name_alike
    (c1 c2 : path → FileInfo → world → option (option error * world))
    p names :
  (∀ f i w w', files w = files w' → alike_runs (c1 f i w) (c2 f i w')) →
  ∀ w w', files w = files w' →
          alike_runs (each_name c1 fn p names w) (each_name c2 gn p names w').
Proof.
  intros Hc. induction names as [|name names IH]; intros w w' Hw;
    cbn [each_name]; [by split|].
  rewrite <-Hw. destruct (Lstat (files w) (p ++ [name])) as [fi|e].
  - pose proof (Hc (p ++ [name]) fi w w' Hw) as H.
    destruct (c1 (p ++ [name]) fi w) as [[[e1|] w1]|],
             (c2 (p ++ [name]) fi w') as [[[e2|] w2]|];
      cbn in H; try done; destruct H as [H1 H2]; try done.
    by apply IH.
  - pose proof (fn_gn_alike (p ++ [name]) None
                  (Some (PathError "lstat" (p ++ [name]) e)) w w' Hw) as H.
    destruct (fn _ None _ w) as [[e1|] w1], (gn _ None _ w') as [[e2|] w2];
      destruct H as [H1 H2]; cbn in H1, H2; try done.
    by apply IH.
Qed.

Lemma walk_alike fuel : ∀ p info w w',
  files w = files w' →
  alike_runs (walk fuel p info fn w) (walk fuel p info gn w').
Proof.
  induction fuel as [|fuel IH]; intros p info w w' Hw.
  { by rewrite !walk_0. }
  rewrite !walk_S. destruct (IsDir info); cbn [negb].
  2: { by apply fn_gn_alike. }
  rewrite <-Hw. destruct (readDirNames (files w) p) as [names|e].
  2: { by apply fn_gn_alike. }
  pose proof (fn_gn_alike p (Some info) None w w' Hw) as H.
  destruct (fn p (Some info) None w) as [[e1|] w1],
           (gn p (Some info) None w') as [[e2|] w2];
    destruct H as [H1 H2]; cbn in H1, H2; try done.
  apply each_name_alike; [|exact H2].
  intros f i v v' Hv. by apply IH.
Qed.

Lemma Walk_alike fuel root w w' :
  files w = files w' →
  alike_runs (Walk fuel root fn w) (Walk fuel root gn w').
Proof.
  intros Hw. unfold Walk. rewrite <-Hw.
  destruct (Lstat (files w) root); [by apply walk_alike|].
  by apply fn_gn_alike.
Qed.
End walk_alike.

(** Two configurations that differ at most in the verbose flag. *)
Definition same_but_verbose (c c' : Config) : Prop :=
  SymDir c = SymDir c' ∧ TargetDir c = TargetDir c'
  ∧ Simulate c = Simulate c' ∧ Delete c = Delete c' ∧ ReSym c = ReSym c'.

Lemma createSymlink_alike c c' srcPath targetPath w w' :
  Simulate c = Simulate c' → files w = files w' →
  alike (createSymlink c srcPath targetPath w)
        (createSymlink c' srcPath targetPath w').
Proof.
  intros Hs Hw. destruct w as [σ out], w' as [σ' out'].
  cbn [files] in Hw. subst σ'.
  unfold alike, createSymlink. run. rewrite <-Hs. cbn [files stdout].
  calls; cbn [fst snd files]; simplify_eq; done.
Qed.

Lemma removeSymlink_alike c c' srcPath targetPath w w' :
  Simulate c = Simulate c' → files w = files w' →
  alike (removeSymlink c srcPath targetPath w)
        (removeSymlink c' srcPath targetPath w').
Proof.
  intros Hs Hw. destruct w as [σ out], w' as [σ' out'].
  cbn [files] in Hw. subst σ'.
  unfold alike, removeSymlink. run. rewrite <-Hs. cbn [files stdout].
  calls; cbn [fst snd files]; simplify_eq; done.
Qed.

Lemma symVisit_alike c c' pkgPath p info err w w' :
  same_but_verbose c c' → files w = files w' →
  alike (symVisit c pkgPath p info err w) (symVisit c' pkgPath p info err w').
Proof.
  intros (_ & Ht & Hs & _ & _) Hw. unfold symVisit. rewrite <-Ht.
  destruct err; [done|]. destruct info as [info|]; [|done].
  case_decide; [done|]. destruct (IsDir info).
  - destruct w as [σ out], w' as [σ' out'].
    cbn [files] in Hw. subst σ'.
    unfold alike. run. rewrite <-Hs. cbn [files stdout].
    calls; cbn [fst snd files]; simplify_eq; done.
  - run. pose proof (createSymlink_alike c c' p
                       (JoinRel (TargetDir c) (Rel pkgPath p)) w w' Hs Hw) as Hc.
    destruct (createSymlink c _ _ w) as [[?|] ?],
             (createSymlink c' _ _ w') as [[?|] ?]; exact Hc.
Qed.

Lemma unsymVisit_alike c c' pkgPath p info err w w' :
  same_but_verbose c c' → files w = files w' →
  alike (unsymVisit c pkgPath p info err w)
        (unsymVisit c' pkgPath p info err w').
Proof.
  intros (_ & Ht & Hs & _ & _) Hw. unfold unsymVisit. rewrite <-Ht.
  destruct err; [done|]. destruct info as [info|]; [|done].
  case_decide; [done|]. destruct (IsDir info); cbn [negb]; [done|].
  run. pose proof (removeSymlink_alike c c' p
                     (JoinRel (TargetDir c) (Rel pkgPath p)) w w' Hs Hw) as Hc.
  destruct (removeSymlink c _ _ w) as [[?|] ?],
           (removeSymlink c' _ _ w') as [[?|] ?]; exact Hc.
Qed.

Lemma symPackage_alike fuel c c' pkg pkgPath w w' :
  same_but_verbose c c' → files w = files w' →
  alike_runs (symPackage fuel c pkg pkgPath w)
             (symPackage fuel c' pkg pkgPath w').
Proof.
  intros Hc Hw. unfold symPackage.
  pose proof (when_files (Verbose c) (Printf ("Stowing package: " +:+ pkg))
                w (λ _, eq_refl)) as H0.
  pose proof (when_files (Verbose c') (Printf ("Stowing package: " +:+ pkg))
                w' (λ _, eq_refl)) as H0'.
  destruct (when (Verbose c) _ w) as [u w0].
  destruct (when (Verbose c') _ w') as [u' w0'].
  cbn [snd] in H0, H0'.
  apply Walk_alike; [|congruence].
  intros p info err v v' Hv. by apply symVisit_alike.
Qed.

Lemma unsymPackage_alike fuel c c' pkg pkgPath w w' :
  same_but_verbose c c' → files w = files w' →
  alike_runs (unsymPackage fuel c pkg pkgPath w)
             (unsymPackage fuel c' pkg pkgPath w').
Proof.
  intros Hc Hw. unfold unsymPackage.
  pose proof (when_files (Verbose c) (Printf ("Unstowing package: " +:+ pkg))
                w (λ _, eq_refl)) as H0.
  pose proof (when_files (Verbose c') (Printf ("Unstowing package: " +:+ pkg))
                w' (λ _, eq_refl)) as H0'.
  destruct (when (Verbose c) _ w) as [u w0].
  destruct (when (Verbose c') _ w') as [u' w0'].
  cbn [snd] in H0, H0'.
  apply Walk_alike; [|congruence].
  intros p info err v v' Hv. by apply unsymVisit_alike.
Qed.

(** Neither the verbose flag nor what was printed before has any
    influence on what processing a package does to the file system and on
    the error it returns: two runs that differ only in these end alike (or
    both run out of fuel). *)
Theorem ProcessPackage_verbose_irrelevant fuel c c' pkg w w'
    (Hconfig : same_but_verbose c c') (Hfiles : files w = files w') :
  match ProcessPackage fuel c pkg w, ProcessPackage fuel c' pkg w' with
  | Some (e, v), Some (e', v') => e = e' ∧ files v = files v'
  | None, None => True
  | _, _ => False
  end.
Proof.
  pose proof Hconfig as (Hsd & Htd & Hsim & Hdel & Hre).
  unfold ProcessPackage. rewrite <-Hsd, <-Hfiles, <-Hdel, <-Hre.
  destruct (IsNotExist (Stat (files w) (Join (SymDir c) pkg))).
  { by split. }
  assert (Hshape : ∀ a b, alike_runs a b →
            match a, b with
            | Some (e, v), Some (e', v') => e = e' ∧ files v = files v'
            | None, None => True
            | _, _ => False
            end).
  { intros [[e v]|] [[e' v']|]; done. }
  destruct (ReSym c).
  - pose proof (unsymPackage_alike fuel c c' pkg (Join (SymDir c) pkg) w w'
                  Hconfig Hfiles) as Hu.
    destruct (unsymPackage fuel c pkg _ w) as [[[e|] v]|],
             (unsymPackage fuel c' pkg _ w') as [[[e'|] v']|];
      cbn in Hu; try done; destruct Hu as [H1 H2]; cbn in H1, H2; try done.
    + split; congruence.
    + apply Hshape. by apply symPackage_alike.
  - destruct (Delete c); apply Hshape.
    + by apply unsymPackage_alike.
    + by apply symPackage_alike.
Qed.

Lemma ProcessPackage_verbose_irrelevant_witness :
  match ProcessPackage 8 Examples.config0 "vim" Examples.fresh,
        ProcessPackage 8 (Examples.with_verbose Examples.config0) "vim"
          Examples.fresh with
  | Some (e, v), Some (e', v') => e = e' ∧ files v = files v'
  | None, None => True
  | _, _ => False
  end.
Proof.
  apply (ProcessPackage_verbose_irrelevant 8 Examples.config0
           (Examples.with_verbose Examples.config0) "vim"
           Examples.fresh Examples.fresh).
  - repeat split.
  - reflexivity.
Defined.

Lemma same_but_verbose_refl c : same_but_verbose c c.
Proof. by repeat split. Qed.

(** Linking a package a second time does nothing: when the first link walk
    succeeded and left the package's own tree as it was, the second one
    succeeds too and changes no file. *)
Theorem link_twice_changes_nothing fuel config pkg w w1
    (Hclean : clean (TargetDir config))
    (Hlink : ReSym config = false) (Hnodelete : Delete config = false)
    (Hfirst : ProcessPackage fuel config pkg w = Some (None, w1))
    (Hpackage : ∀ q, resolve (files w) true (Join (SymDir config) pkg) = Ok q →
                     same_below q (files w) (files w1)) :
  ∃ w2, ProcessPackage fuel config pkg w1 = Some (None, w2)
        ∧ files w2 = files w1.
Proof.
  revert Hfirst. unfold ProcessPackage. rewrite Hlink, Hnodelete.
  destruct (Stat (files w) (Join (SymDir config) pkg)) as [fi|e] eqn:ES.
  - cbn [IsNotExist]. intros Hfirst.
    pose proof (symPackage_grown _ _ _ _ _ _ Hclean Hfirst) as Hg.
    apply grown_sub in Hg. cbn [snd] in Hg.
    rewrite (Stat_stable _ _ _ _ Hg ES) by discriminate. cbn [IsNotExist].
    destruct (Simulate config) eqn:Hsim.
    + pose proof (symPackage_simulate _ _ _ _ _ _ Hsim Hfirst) as Hsame.
      cbn [snd] in Hsame.
      pose proof (symPackage_alike fuel config config pkg
                    (Join (SymDir config) pkg) w w1
                    (same_but_verbose_refl config) (eq_sym Hsame)) as Ha.
      rewrite Hfirst in Ha.
      destruct (symPackage fuel config pkg _ w1) as [[e2 w2]|]; [|done].
      destruct Ha as [H1 H2]. cbn in H1, H2. subst e2. by exists w2.
    + exact (symPackage_again _ _ _ _ w w1 Hclean Hsim Hfirst Hpackage).
  - destruct e; cbn [IsNotExist]; try discriminate.
    all: intros Hfirst.
    all: pose proof (symPackage_grown _ _ _ _ _ _ Hclean Hfirst) as Hg.
    all: apply grown_sub in Hg; cbn [snd] in Hg.
    all: rewrite (Stat_stable _ _ _ _ Hg ES) by discriminate; cbn [IsNotExist].
    all: destruct (Simulate config) eqn:Hsim;
      [|exact (symPackage_again _ _ _ _ w w1 Hclean Hsim Hfirst Hpackage)].
    all: pose proof (symPackage_simulate _ _ _ _ _ _ Hsim Hfirst) as Hsame.
    all: cbn [snd] in Hsame.
    all: pose proof (symPackage_alike fuel config config pkg
                       (Join (SymDir config) pkg) w w1
                       (same_but_verbose_refl config) (eq_sym Hsame)) as Ha.
    all: rewrite Hfirst in Ha.
    all: destruct (symPackage fuel config pkg _ w1) as [[e2 w2]|]; [|done].
    all: destruct Ha as [H1 H2]; cbn in H1, H2; subst e2; by exists w2.
Qed.

Lemma link_twice_changes_nothing_witness :
  ProcessPackage 8 Examples.config0 "vim" Examples.fresh
  = Some (None, Examples.linked)
  ∧ ∃ w2, ProcessPackage 8 Examples.config0 "vim" Examples.linked
          = Some (None, w2)
          ∧ files w2 = files Examples.linked.
Proof.
  assert (Hfirst : ProcessPackage 8 Examples.config0 "vim" Examples.fresh
                   = Some (None, Examples.linked)) by (vm_compute; reflexivity).
  split; [exact Hfirst|].
  apply (link_twice_changes_nothing 8 Examples.config0 "vim" Examples.fresh).
  - repeat constructor; vm_compute; intros; intuition discriminate.
  - reflexivity.
  - reflexivity.
  - exact Hfirst.
  - intros q Hq. vm_compute in Hq. injection Hq as <-.
    intros rel Hrel. unfold Examples.linked. cbn [files].
    by rewrite !lookup_insert_ne by discriminate.
Defined.

(** ** Linking and unlinking one entry *)




Section one_entry.
Context (config : Config) (srcPath targetPath : path) (w w1 : world).
Hypothesis Hclean : clean targetPath.
Hypothesis Hsim : Simulate config = false.
Hypothesis Hlinked : createSymlink config srcPath targetPath w = (None, w1).


End one_entry.




(** ** Enough fuel *)

Lemma Lstat_dir_resolve σ p fi :
  Lstat σ p = Ok fi → IsDir fi = true →
  ∃ q perm, resolve σ true p = Ok q ∧ node_at σ q = Some (Directory perm).
Proof.
  intros HL Hd. destruct (Lstat_dir_node _ _ _ HL Hd) as (q & perm & Hr & Hn).
  exists q, perm. split; [|exact Hn].
  unfold resolve. apply namei_follow; [|exact Hr].
  intros d. by rewrite Hn.
Qed.

Section walk_total.
Context (fn : WalkFunc) (σ : fs) (D : nat).
Hypothesis fn_files : ∀ p info err w, files (fn p info err w).2 = files w.
Hypothesis depth : ∀ k : path, is_Some (σ !! k) → (List.length k ≤ D)%nat.

Lemma walk_keeps_files fuel p info w r :
  walk fuel p info fn w = Some r → files r.2 = files w.
Proof.
  intros HW.
  eapply (walk_invariant (λ w', files w' = files w) (λ _, True)) in HW;
    [by apply HW| |done|done].
  intros p' info' err w1 Hw1 _. split; [|done]. by rewrite fn_files.
Qed.

Lemma each_name_total
    (walk_child : path → FileInfo → world → option (option error * world))
    p names :
  (∀ name fi w, name ∈ names → files w = σ →
                Lstat σ (p ++ [name]) = Ok fi →
                ∃ r, walk_child (p ++ [name]) fi w = Some r
                     ∧ files r.2 = σ) →
  ∀ w, files w = σ → ∃ r, each_name walk_child fn p names w = Some r.
Proof.
  induction names as [|name names IH]; intros Hc w Hw; cbn [each_name];
    [by eexists|].
  assert (Hrest : ∀ w', files w' = σ →
            ∃ r, each_name walk_child fn p names w' = Some r).
  { apply IH. intros name' fi w' Hin. apply Hc. by right. }
  rewrite Hw. destruct (Lstat σ (p ++ [name])) as [fi|e] eqn:EL.
  - destruct (Hc name fi w) as ([[e'|] w'] & -> & Hf);
      [by left|exact Hw|exact EL|by eexists|].
    by apply Hrest.
  - pose proof (fn_files (p ++ [name]) None
                  (Some (PathError "lstat" (p ++ [name]) e)) w) as Hf.
    destruct (fn _ None _ w) as [[e'|] w']; [by eexists|].
    apply Hrest. cbn [snd] in Hf. congruence.
Qed.

(** On a tree that the function walked with leaves alone, a walk given
    more fuel than the longest path has components comes to an end. *)
Lemma walk_total fuel : ∀ p info w,
  files w = σ → (0 < fuel)%nat →
  (IsDir info = true →
     ∃ q perm, resolve σ true p = Ok q
               ∧ node_at σ q = Some (Directory perm)
               ∧ (D < fuel + List.length q)%nat) →
  ∃ r, walk fuel p info fn w = Some r.
Proof.
  induction fuel as [|fuel IH]; intros p info w Hw Hpos Hdir; [lia|].
  rewrite walk_S. destruct (IsDir info) eqn:Hd; cbn [negb]; [|by eexists].
  destruct (Hdir eq_refl) as (q & perm & Hr & Hn & Hlt).
  assert (En : readDirNames (files w) p = Ok (children σ q)).
  { unfold readDirNames. by rewrite Hw, Hr, Hn. }
  rewrite En.
  pose proof (fn_files p (Some info) None w) as Hf.
  destruct (fn p (Some info) None w) as [[e1|] w1]; [by eexists|].
  cbn [snd] in Hf.
  apply each_name_total; [|congruence].
  intros name fi v Hin Hv HL.
  apply children_valid in Hin as [Hvalid Hsome].
  pose proof (depth _ Hsome) as Hlen. rewrite length_app in Hlen.
  cbn [List.length] in Hlen.
  destruct (IH (p ++ [name]) fi v Hv) as [r Hr'].
  - lia.
  - intros Hdi. exists (q ++ [name]).
    rewrite <-Hv in HL.
    destruct (Lstat_dir_resolve _ _ _ HL Hdi) as (q' & perm' & Hq' & Hn').
    rewrite Hv in HL, Hq', Hn'.
    pose proof (resolve_child_directory _ _ _ _ _ Hvalid Hr HL Hdi) as Hq.
    assert (q' = q ++ [name]) as -> by congruence.
    exists perm'. split_and!; [exact Hq|exact Hn'|].
    rewrite length_app. cbn [List.length]. lia.
  - exists r. split; [exact Hr'|].
    rewrite (walk_keeps_files _ _ _ _ _ Hr'). exact Hv.
Qed.
End walk_total.

Lemma Walk_total (fn : WalkFunc) fuel root w :
  (∀ p info err w, files (fn p info err w).2 = files w) →
  (∀ k : path, is_Some (files w !! k) → (List.length k < fuel)%nat) →
  (0 < fuel)%nat →
  ∃ r, Walk fuel root fn w = Some r.
Proof.
  intros Hfn Hdepth Hpos. unfold Walk.
  destruct (Lstat (files w) root) as [info|e] eqn:EL; [|by eexists].
  apply (walk_total fn (files w) (fuel - 1) Hfn); [|reflexivity|exact Hpos|].
  - intros k Hk. specialize (Hdepth k Hk). lia.
  - intros Hd. destruct (Lstat_dir_resolve _ _ _ EL Hd) as (q & perm & Hr & Hn).
    exists q, perm. split_and!; [exact Hr|exact Hn|lia].
Qed.

(** A simulated run always comes to an end: given more fuel than the
    longest path of the tree has components, processing a package with the
    simulate flag set returns a result, in every mode. *)
Theorem simulate_terminates fuel config pkg w
    (Hsim : Simulate config = true)
    (Hdepth : ∀ k : path, is_Some (files w !! k) → (List.length k < fuel)%nat)
    (Hpos : (0 < fuel)%nat) :
  ∃ r, ProcessPackage fuel config pkg w = Some r.
Proof.
  assert (Hsym : ∀ v, files v = files w →
            ∃ r, symPackage fuel config pkg (Join (SymDir config) pkg) v
                 = Some r).
  { intros v Hv. unfold symPackage.
    pose proof (when_files (Verbose config)
                  (Printf ("Stowing package: " +:+ pkg)) v (λ _, eq_refl))
      as H0.
    destruct (when (Verbose config) _ v) as [u v0]. cbn [snd] in H0.
    apply Walk_total; [|rewrite H0, Hv; exact Hdepth|exact Hpos].
    intros p info err v'. by apply symVisit_simulate. }
  assert (Hunsym : ∀ v, files v = files w →
            ∃ r, unsymPackage fuel config pkg (Join (SymDir config) pkg) v
                 = Some r).
  { intros v Hv. unfold unsymPackage.
    pose proof (when_files (Verbose config)
                  (Printf ("Unstowing package: " +:+ pkg)) v (λ _, eq_refl))
      as H0.
    destruct (when (Verbose config) _ v) as [u v0]. cbn [snd] in H0.
    apply Walk_total; [|rewrite H0, Hv; exact Hdepth|exact Hpos].
    intros p info err v'. by apply unsymVisit_simulate. }
  unfold ProcessPackage.
  destruct (IsNotExist (Stat (files w) (Join (SymDir config) pkg)));
    [by eexists|].
  destruct (ReSym config).
  - destruct (Hunsym w eq_refl) as [[[e|] w1] Hu]; rewrite Hu; [by eexists|].
    apply Hsym. exact (unsymPackage_simulate _ _ _ _ _ _ Hsim Hu).
  - destruct (Delete config); [by apply Hunsym|by apply Hsym].
Qed.

Lemma simulate_terminates_witness :
  ∃ r, ProcessPackage 5 (Examples.with_simulate Examples.config0) "vim"
         Examples.fresh = Some r.
Proof.
  apply (simulate_terminates 5 (Examples.with_simulate Examples.config0) "vim"
           Examples.fresh); [reflexivity| |lia].
  intros k [nd Hk]. apply elem_of_map_to_list in Hk.
  vm_compute in Hk.
  repeat (apply elem_of_cons in Hk as [Hk|Hk];
          [injection Hk as -> _; cbn; lia|]).
  by apply elem_of_nil in Hk.
Defined.

(** ** Plain files and directories are never touched *)

(** From [σ] to [σ'] no plain file was added, changed or removed, and no
    directory was changed or removed. *)
Definition files_and_dirs_kept (σ σ' : fs) : Prop :=
  ∀ k : path,
    (∀ perm, σ !! k = Some (File perm) ↔ σ' !! k = Some (File perm))
    ∧ (∀ perm, σ !! k = Some (Directory perm) →
               σ' !! k = Some (Directory perm)).

Lemma files_and_dirs_kept_refl σ : files_and_dirs_kept σ σ.
Proof. by intros k. Qed.

Lemma files_and_dirs_kept_trans σ1 σ2 σ3 :
  files_and_dirs_kept σ1 σ2 → files_and_dirs_kept σ2 σ3 →
  files_and_dirs_kept σ1 σ3.
Proof.
  intros H12 H23 k. destruct (H12 k) as [F12 D12], (H23 k) as [F23 D23].
  split.
  - intros perm. by rewrite F12, F23.
  - intros perm Hd. by apply D23, D12.
Qed.

Lemma grown_kept σ σ' : grown σ σ' → files_and_dirs_kept σ σ'.
Proof.
  intros [Hsub Hnew] k. split.
  - intros perm. split.
    + intros Hk. exact (lookup_weaken _ _ _ _ Hk Hsub).
    + intros Hk'. destruct (σ !! k) as [nd|] eqn:E.
      * pose proof (lookup_weaken _ _ _ _ E Hsub). congruence.
      * by destruct (Hnew k _ E Hk' perm).
  - intros perm Hk. exact (lookup_weaken _ _ _ _ Hk Hsub).
Qed.

Lemma only_links_removed_kept σ σ' :
  only_links_removed σ σ' → files_and_dirs_kept σ σ'.
Proof.
  intros H k. destruct (H k) as [E|[E [d Hd]]].
  - rewrite E. by split.
  - rewrite E, Hd. split; [|done]. intros perm. by split.
Qed.

Lemma ProcessPackage_kept fuel config pkg w r :
  clean (TargetDir config) →
  ProcessPackage fuel config pkg w = Some r →
  files_and_dirs_kept (files w) (files r.2).
Proof.
  intros Hclean Hrun.
  revert Hrun. unfold ProcessPackage.
  destruct (IsNotExist (Stat (files w) (Join (SymDir config) pkg))).
  { intros Hrun.
    assert (r = (Some (ErrPackageMissing (Join (SymDir config) pkg)), w))
      as -> by congruence.
    apply files_and_dirs_kept_refl. }
  destruct (ReSym config).
  - destruct (unsymPackage fuel config pkg (Join (SymDir config) pkg) w)
      as [[[err|] w1]|] eqn:E; [| |discriminate].
    + intros Hrun.
      assert (r = (Some (ErrUnsymDuringResym err), w1)) as -> by congruence.
      apply only_links_removed_kept.
      exact (unsymPackage_only_links _ _ _ _ _ _ Hclean E).
    + intros Hrun. eapply files_and_dirs_kept_trans.
      * apply only_links_removed_kept.
        exact (unsymPackage_only_links _ _ _ _ _ _ Hclean E).
      * apply grown_kept. exact (symPackage_grown _ _ _ _ _ _ Hclean Hrun).
  - destruct (Delete config); intros Hrun.
    + apply only_links_removed_kept.
      exact (unsymPackage_only_links _ _ _ _ _ _ Hclean Hrun).
    + apply grown_kept. exact (symPackage_grown _ _ _ _ _ _ Hclean Hrun).
Qed.

(** In every mode, processing a package never adds, changes or removes a
    plain file, and never changes or removes a directory: all it ever does
    to the file system is to add directories and to add or remove symbolic
    links.  This holds also when processing ends in an error. *)
Theorem ProcessPackage_keeps_files_and_directories fuel config pkg w r
    (Hclean : clean (TargetDir config))
    (Hrun : ProcessPackage fuel config pkg w = Some r) :
  ∀ k : path,
    (∀ perm, files w !! k = Some (File perm)
             ↔ files r.2 !! k = Some (File perm))
    ∧ (∀ perm, files w !! k = Some (Directory perm) →
               files r.2 !! k = Some (Directory perm)).
Proof. exact (ProcessPackage_kept fuel config pkg w r Hclean Hrun). Qed.

Lemma ProcessPackage_keeps_files_and_directories_witness :
  ∃ r, ProcessPackage 8 (Examples.with_resym Examples.config0) "vim"
         Examples.plain_file = Some r
       ∧ files r.2 !! ["home"; "u"; ".vimrc"] = Some (File 384).
Proof.
  assert (Hclean : clean (TargetDir (Examples.with_resym Examples.config0))).
  { repeat constructor; vm_compute; intros; intuition discriminate. }
  assert (Hrun : ∃ r, ProcessPackage 8 (Examples.with_resym Examples.config0)
                        "vim" Examples.plain_file = Some r)
    by (eexists; vm_compute; reflexivity).
  destruct Hrun as [r Hrun]. exists r. split; [exact Hrun|].
  apply (ProcessPackage_keeps_files_and_directories _ _ _ _ _ Hclean Hrun).
  vm_compute. reflexivity.
Defined.

(** ** Only links into the package *)

(** [σ'] is [σ] without some symbolic links, each of them recorded as
    pointing at a path below [root]. *)
Definition own_links_removed (root : path) (σ σ' : fs) : Prop :=
  ∀ k : path,
    σ' !! k = σ !! k
    ∨ (σ' !! k = None
       ∧ ∃ p, belowb root p = true ∧ σ !! k = Some (Symlink (to_string p))).

Lemma own_links_removed_refl root σ : own_links_removed root σ σ.
Proof. intros k. by left. Qed.

Lemma own_links_removed_delete root σ σ' q p :
  own_links_removed root σ σ' → belowb root p = true →
  node_at σ' q = Some (Symlink (to_string p)) →
  own_links_removed root σ (delete q σ').
Proof.
  intros H Hp Hq k. destruct (decide (k = q)) as [->|Hne].
  - right. rewrite lookup_delete_eq. split; [done|].
    destruct q as [|c q]; [done|]. cbn [node_at] in Hq.
    destruct (H (c :: q)) as [E|[E _]]; [|congruence].
    exists p. split; [exact Hp|congruence].
  - rewrite lookup_delete_ne by done. apply H.
Qed.

Lemma unsymVisit_own_links config pkgPath p info err w σ :
  clean (TargetDir config) → belowb pkgPath p = true →
  own_links_removed pkgPath σ (files w) →
  own_links_removed pkgPath σ (files (unsymVisit config pkgPath p info err w).2).
Proof.
  intros Hclean Hp HP.
  destruct err as [e|]; [exact HP|]. destruct info as [info|]; [|exact HP].
  destruct (decide (p = pkgPath)) as [->|Hne].
  { unfold unsymVisit. by rewrite decide_True. }
  destruct (unsymVisit_cases config pkgPath p info w Hclean Hne)
    as (_ & Hchg & _).
  destruct (decide (files (unsymVisit config pkgPath p (Some info) None w).2
                    = files w)) as [->|Hd]; [exact HP|].
  destruct (Hchg Hd) as (_ & _ & q & _ & Hn & _ & ->).
  exact (own_links_removed_delete _ _ _ _ _ HP Hp Hn).
Qed.

Lemma unsymPackage_own_links fuel config pkg pkgPath w r :
  clean (TargetDir config) →
  unsymPackage fuel config pkg pkgPath w = Some r →
  own_links_removed pkgPath (files w) (files r.2).
Proof.
  intros Hclean. unfold unsymPackage.
  pose proof (when_files (Verbose config)
                (Printf ("Unstowing package: " +:+ pkg)) w (λ _, eq_refl))
    as H0.
  destruct (when (Verbose config) _ w) as [u w0]. cbn [snd] in H0.
  rewrite Walk_visits_below_root. intros HW.
  eapply (Walk_invariant
            (λ w', own_links_removed pkgPath (files w) (files w'))
            (λ _, True)) in HW;
    [by apply HW| |done|rewrite H0; apply own_links_removed_refl].
  intros p info err w1 Hw1 _. split; [|done].
  destruct (belowb pkgPath p) eqn:Hp; [|exact Hw1].
  by apply unsymVisit_own_links.
Qed.

(** Delete mode removes nothing but symbolic links that point into the
    package being processed: every entry of the file system is afterwards
    as it was, or is gone and was a link whose stored destination is a path
    below the package root.  Links of other packages stay. *)
Theorem delete_mode_removes_only_own_links fuel config pkg w r
    (Hclean : clean (TargetDir config))
    (Hnoresym : ReSym config = false) (Hdelete : Delete config = true)
    (Hrun : ProcessPackage fuel config pkg w = Some r) :
  ∀ k : path,
    files r.2 !! k = files w !! k
    ∨ (files r.2 !! k = None
       ∧ ∃ rel, Forall valid_name rel
                ∧ files w !! k
                  = Some (Symlink (to_string (Join (SymDir config) pkg ++ rel)))).
Proof.
  assert (Hown : own_links_removed (Join (SymDir config) pkg)
                   (files w) (files r.2)).
  { revert Hrun. unfold ProcessPackage. rewrite Hnoresym, Hdelete.
    destruct (IsNotExist (Stat (files w) (Join (SymDir config) pkg))).
    - intros Hrun.
      assert (r = (Some (ErrPackageMissing (Join (SymDir config) pkg)), w))
        as -> by congruence.
      apply own_links_removed_refl.
    - intros Hrun. exact (unsymPackage_own_links _ _ _ _ _ _ Hclean Hrun). }
  intros k. destruct (Hown k) as [E|[E (p & Hp & Hk)]]; [by left|].
  right. split; [exact E|].
  apply belowb_spec in Hp as (rel & -> & Hrel). by exists rel.
Qed.

Lemma delete_mode_removes_only_own_links_witness :
  ∃ r, ProcessPackage 8 (Examples.with_delete Examples.config0) "vim"
         Examples.foreign_link = Some r
       ∧ files r.2 !! ["home"; "u"; ".vimrc"] = Some (Symlink "/other/.vimrc").
Proof.
  assert (Hclean : clean (TargetDir (Examples.with_delete Examples.config0))).
  { repeat constructor; vm_compute; intros; intuition discriminate. }
  assert (Hrun : ∃ r, ProcessPackage 8 (Examples.with_delete Examples.config0)
                        "vim" Examples.foreign_link = Some r)
    by (eexists; vm_compute; reflexivity).
  destruct Hrun as [r Hrun]. exists r. split; [exact Hrun|].
  destruct (delete_mode_removes_only_own_links _ _ _ _ _ Hclean eq_refl eq_refl
              Hrun ["home"; "u"; ".vimrc"]) as [E|[_ (rel & _ & Hk)]].
  - rewrite E. vm_compute. reflexivity.
  - exfalso. revert Hk.
    change (files Examples.foreign_link !! ["home"; "u"; ".vimrc"])
      with (Some (Symlink "/other/.vimrc")).
    destruct rel; discriminate.
Defined.

(** [σ'] is [σ] with directories and symbolic links added, each added link
    pointing at a path below [root]. *)
Definition own_links_added (root : path) (σ σ' : fs) : Prop :=
  σ ⊆ σ'
  ∧ ∀ k nd, σ !! k = None → σ' !! k = Some nd →
      (∃ perm, nd = Directory perm)
      ∨ (∃ p, belowb root p = true ∧ nd = Symlink (to_string p)).

Lemma own_links_added_refl root σ : own_links_added root σ σ.
Proof. split; [done|]. intros k nd H1 H2. congruence. Qed.

Lemma own_links_added_trans root σ1 σ2 σ3 :
  own_links_added root σ1 σ2 → own_links_added root σ2 σ3 →
  own_links_added root σ1 σ3.
Proof.
  intros [S1 D1] [S2 D2]. split; [by etrans|].
  intros k nd H1 H3. destruct (σ2 !! k) as [nd2|] eqn:E2.
  - pose proof (lookup_weaken _ _ _ _ E2 S2). apply (D1 k); congruence.
  - by apply (D2 k).
Qed.

Lemma dirs_added_own_links root perm σ σ' :
  dirs_added perm σ σ' → own_links_added root σ σ'.
Proof.
  intros [S D]. split; [done|]. intros k nd H1 H2. left.
  eexists. exact (D k nd H1 H2).
Qed.

Lemma own_links_added_insert root σ q p :
  belowb root p = true → σ !! q = None →
  own_links_added root σ (<[q := Symlink (to_string p)]> σ).
Proof.
  intros Hp Hq. split; [by apply insert_subseteq|].
  intros k nd Hk. destruct (decide (k = q)) as [->|].
  - rewrite lookup_insert_eq. intros [= <-]. right. by exists p.
  - rewrite lookup_insert_ne by done. congruence.
Qed.

Lemma createSymlink_own_links root config srcPath targetPath w :
  clean targetPath → belowb root srcPath = true →
  own_links_added root (files w)
    (files (createSymlink config srcPath targetPath w).2).
Proof.
  intros Hclean Hp. unfold createSymlink. run.
  destruct (Lstat (files w) targetPath) as [fi|e] eqn:EL.
  - destruct (Readlink (files w) targetPath) as [link|] eqn:ER.
    + case_decide as Hl.
      * destruct (Verbose config); cbn [fst snd files];
          apply own_links_added_refl.
      * apply own_links_added_refl.
    + apply own_links_added_refl.
  - assert (Hmk : ∀ σ1, MkdirAll (files w) (Dir targetPath) 493 = Ok σ1 →
                        own_links_added root (files w) σ1).
    { intros σ1 HM. apply MkdirAll_spec in HM as [Hadd _];
        [by eapply dirs_added_own_links|by apply clean_removelast]. }
    assert (Hln : ∀ σ1 σ2, own_links_added root (files w) σ1 →
              Symlink_ σ1 (to_string srcPath) targetPath = Ok σ2 →
              own_links_added root (files w) σ2).
    { intros σ1 σ2 Hg HS.
      apply Symlink_Lstat in HS as (q & Hr & Hn & Hnone & ->); [|done].
      eapply own_links_added_trans; [done|].
      by apply own_links_added_insert. }
    calls; try apply own_links_added_refl.
    all: try (by apply Hmk).
    all: try match goal with
         | H : Symlink_ _ _ _ = Ok _ |- _ =>
             apply Hln in H; [done|by auto using own_links_added_refl]
         end.
Qed.

Lemma symVisit_own_links config pkgPath p info err w :
  clean (TargetDir config) → belowb pkgPath p = true →
  own_links_added pkgPath (files w)
    (files (symVisit config pkgPath p info err w).2).
Proof.
  intros Hclean Hp. unfold symVisit.
  destruct err; [apply own_links_added_refl|].
  destruct info as [info|]; [|apply own_links_added_refl].
  case_decide; [apply own_links_added_refl|].
  pose proof (clean_onto_clean (TargetDir config) (Rel pkgPath p) Hclean) as Hct.
  destruct (IsDir info).
  - run. destruct (IsNotExist _); [|apply own_links_added_refl].
    assert (Hmk : ∀ σ1, MkdirAll (files w) (JoinRel (TargetDir config)
                          (Rel pkgPath p)) (Mode info) = Ok σ1 →
                        own_links_added pkgPath (files w) σ1).
    { intros σ1 HM. apply MkdirAll_spec in HM as [Hadd _]; [|done].
      by eapply dirs_added_own_links. }
    calls; first [apply own_links_added_refl | by apply Hmk].
  - run. pose proof (createSymlink_own_links pkgPath config p _ w Hct Hp) as Hg.
    by destruct (createSymlink _ _ _ _) as [[?|] ?].
Qed.

Lemma symPackage_own_links fuel config pkg pkgPath w r :
  clean (TargetDir config) →
  symPackage fuel config pkg pkgPath w = Some r →
  own_links_added pkgPath (files w) (files r.2).
Proof.
  intros Hclean. unfold symPackage.
  pose proof (when_files (Verbose config)
                (Printf ("Stowing package: " +:+ pkg)) w (λ _, eq_refl))
    as H0.
  destruct (when (Verbose config) _ w) as [u w0]. cbn [snd] in H0.
  rewrite Walk_visits_below_root. intros HW.
  eapply (Walk_invariant
            (λ w', own_links_added pkgPath (files w) (files w'))
            (λ _, True)) in HW;
    [by apply HW| |done|rewrite H0; apply own_links_added_refl].
  intros p info err w1 Hw1 _. split; [|done].
  destruct (belowb pkgPath p) eqn:Hp; [|exact Hw1].
  eapply own_links_added_trans; [exact Hw1|]. by apply symVisit_own_links.
Qed.

(** In the default mode, every symbolic link that processing a package
    creates points into that package: its stored destination is the path of
    an entry below the package root. *)
Theorem link_mode_links_point_into_package fuel config pkg w r
    (Hclean : clean (TargetDir config))
    (Hlink : ReSym config = false) (Hnodelete : Delete config = false)
    (Hrun : ProcessPackage fuel config pkg w = Some r) :
  ∀ k dest, files w !! k = None → files r.2 !! k = Some (Symlink dest) →
    ∃ rel, Forall valid_name rel
           ∧ dest = to_string (Join (SymDir config) pkg ++ rel).
Proof.
  assert (Hown : own_links_added (Join (SymDir config) pkg)
                   (files w) (files r.2)).
  { revert Hrun. unfold ProcessPackage. rewrite Hlink, Hnodelete.
    destruct (IsNotExist (Stat (files w) (Join (SymDir config) pkg))).
    - intros Hrun.
      assert (r = (Some (ErrPackageMissing (Join (SymDir config) pkg)), w))
        as -> by congruence.
      apply own_links_added_refl.
    - intros Hrun. exact (symPackage_own_links _ _ _ _ _ _ Hclean Hrun). }
  intros k dest Hk Hk'. destruct Hown as [_ Hnew].
  destruct (Hnew k _ Hk Hk') as [[perm [=]]|(p & Hp & [= ->])].
  apply belowb_spec in Hp as (rel & -> & Hrel). by exists rel.
Qed.

Lemma link_mode_links_point_into_package_witness :
  ∃ r rel, ProcessPackage 8 Examples.config0 "vim" Examples.fresh = Some r
       ∧ files r.2 !! ["home"; "u"; ".vimrc"]
         = Some (Symlink (to_string (Join (SymDir Examples.config0) "vim" ++ rel))).
Proof.
  assert (Hclean : clean (TargetDir Examples.config0)).
  { repeat constructor; vm_compute; intros; intuition discriminate. }
  assert (Hrun : ∃ r, ProcessPackage 8 Examples.config0 "vim" Examples.fresh
                      = Some r
                      ∧ files Examples.fresh !! ["home"; "u"; ".vimrc"] = None
                      ∧ files r.2 !! ["home"; "u"; ".vimrc"]
                        = Some (Symlink "/src/vim/.vimrc"))
    by (eexists; vm_compute; repeat split; reflexivity).
  destruct Hrun as (r & Hrun & Hk & Hk'). exists r.
  destruct (link_mode_links_point_into_package _ _ _ _ _ Hclean eq_refl eq_refl
              Hrun _ _ Hk Hk') as (rel & _ & E).
  exists rel. split; [exact Hrun|]. rewrite Hk'. by rewrite E.
Defined.

(** ** A whole run *)

(** A whole run over the packages of the command line, whether it succeeds
    or stops at a failing package, never adds, changes or removes a plain
    file and never changes or removes a directory. *)
Theorem processPackages_keeps_files_and_directories fuel config pkgs w r
    (Hclean : clean (TargetDir config))
    (Hrun : Cmd.processPackages fuel config pkgs w = Some r) :
  ∀ k : path,
    (∀ perm, files w !! k = Some (File perm)
             ↔ files r.2 !! k = Some (File perm))
    ∧ (∀ perm, files w !! k = Some (Directory perm) →
               files r.2 !! k = Some (Directory perm)).
Proof.
  change (files_and_dirs_kept (files w) (files r.2)).
  revert w Hrun. induction pkgs as [|pkg pkgs IH]; intros w; cbn [Cmd.processPackages].
  - intros [= <-]. apply files_and_dirs_kept_refl.
  - destruct (ProcessPackage fuel config pkg w) as [[[err|] w1]|] eqn:E;
      [| |discriminate].
    + intros [= <-]. exact (ProcessPackage_kept _ _ _ _ _ Hclean E).
    + intros Hrun. eapply files_and_dirs_kept_trans.
      * exact (ProcessPackage_kept _ _ _ _ _ Hclean E).
      * exact (IH _ Hrun).
Qed.

Lemma processPackages_keeps_files_and_directories_witness :
  ∃ r, Cmd.processPackages 8 (Examples.with_resym Examples.config0)
         ["vim"; "emacs"] Examples.plain_file = Some r
       ∧ files r.2 !! ["home"; "u"; ".vimrc"] = Some (File 384).
Proof.
  assert (Hclean : clean (TargetDir (Examples.with_resym Examples.config0))).
  { repeat constructor; vm_compute; intros; intuition discriminate. }
  assert (Hrun : ∃ r, Cmd.processPackages 8 (Examples.with_resym Examples.config0)
                        ["vim"; "emacs"] Examples.plain_file = Some r)
    by (eexists; vm_compute; reflexivity).
  destruct Hrun as [r Hrun]. exists r. split; [exact Hrun|].
  apply (processPackages_keeps_files_and_directories _ _ _ _ _ Hclean Hrun
           ["home"; "u"; ".vimrc"]).
  vm_compute. reflexivity.
Defined.
